(** * tcplocust: the Ping/Pong framing protocol of [tcpserver.py] and [tcplocust.py]

    A shallow embedding of the two Python programs of the repository:

    - [tcpserver.py]: [Handler.read_bytes] and [Handler.handle], the
      thread-per-connection Ping/Pong server;
    - [tcplocust.py]: [TcpSocketLocust.connect], [TcpSocketLocust.read_bytes],
      [TcpSocketLocust.ping_pong] and the task set [UserBehavior].

    Python values are modelled as the code has them: [bytes] is a list of
    bytes, [int] is an unbounded natural ([N]), [str] is a list of Unicode
    code points.  The socket, the clock and the event hooks of Locust are the
    environment of the programs; they are modelled as explicit state threaded
    through a small state-and-exception monad. *)

From Stdlib Require Import List NArith ZArith Lia String Bool.
From Stdlib.Strings Require Import Byte Ascii.
Import ListNotations.

Local Open Scope N_scope.

(* ================================================================== *)
(** ** Python values *)

(** [bytes]: an immutable sequence of integers in [0, 255]. *)
Definition bytes := list byte.

(** [len(b)] for a [bytes] object, as a Python [int]. *)
Definition len {A : Type} (l : list A) : N := N.of_nat (List.length l).

(** [str]: a sequence of Unicode code points. *)
Definition str := list N.

(** A source literal made of ASCII characters, as a [str]. *)
Fixpoint lit (s : string) : str :=
  match s with
  | EmptyString => []
  | String c s' => N_of_ascii c :: lit s'
  end.

(** The byte whose value is [n mod 256]. *)
Definition byte_of (n : N) : byte :=
  match Byte.of_N (n mod 256) with
  | Some b => b
  | None => x00
  end.

(** [b[:n]] and [b[n:]] on a sequence, with [n] a Python [int]. *)
Fixpoint take {A : Type} (n : N) (l : list A) : list A :=
  match l with
  | [] => []
  | x :: l' => if n =? 0 then [] else x :: take (N.pred n) l'
  end.

Fixpoint drop {A : Type} (n : N) (l : list A) : list A :=
  match l with
  | [] => []
  | x :: l' => if n =? 0 then l else drop (N.pred n) l'
  end.

(** The exceptions the two programs meet.  [Exception msg] is what the source
    raises itself ([raise Exception("...")]); the others come from the
    interpreter and the socket library. *)
Inductive exn : Type :=
| Exception (msg : string)
| OSError (msg : string)
| OverflowError
| UnicodeDecodeError
| UnicodeEncodeError.

(* ------------------------------------------------------------------ *)
(** *** [int.to_bytes] and [int.from_bytes], byte order ['little'] *)

(** The [length] low-order base-256 digits of [n], least significant first. *)
Fixpoint le_digits (length : nat) (n : N) : bytes :=
  match length with
  | O => []
  | S k => byte_of (n mod 256) :: le_digits k (n / 256)
  end.

(** [n.to_bytes(length, 'little')]: [OverflowError] when [n] does not fit. *)
Definition to_bytes (n : N) (length : nat) : exn + bytes :=
  if n <? 256 ^ N.of_nat length then inr (le_digits length n)
  else inl OverflowError.

(** [int.from_bytes(b, 'little')]. *)
Fixpoint from_bytes (b : bytes) : N :=
  match b with
  | [] => 0
  | x :: b' => Byte.to_N x + 256 * from_bytes b'
  end.

(* ------------------------------------------------------------------ *)
(** *** The UTF-8 codec behind [str.encode()] and [bytes.decode("utf-8")]

    Both are the strict codec of the interpreter: shortest form only, no
    surrogates, nothing above U+10FFFF.  The decoder computes a code point
    from its bytes the way CPython does, by accumulating [(ch << 6) + ch2]
    and subtracting the tag bits at the end. *)

Definition is_cont (b : byte) : bool :=
  (0x80 <=? Byte.to_N b) && (Byte.to_N b <=? 0xBF).

Definition in_range (lo hi : N) (b : byte) : bool :=
  (lo <=? Byte.to_N b) && (Byte.to_N b <=? hi).

Fixpoint utf8_decode (b : bytes) : option str :=
  match b with
  | [] => Some []
  | b0 :: r0 =>
    let ch := Byte.to_N b0 in
    if ch <? 0x80 then option_map (cons ch) (utf8_decode r0)
    else if ch <? 0xC2 then None
    else if ch <? 0xE0 then
      match r0 with
      | b1 :: r1 =>
        if is_cont b1 then
          option_map (cons ((ch * 64 + Byte.to_N b1) - (0xC0 * 64 + 0x80)))
                     (utf8_decode r1)
        else None
      | _ => None
      end
    else if ch <? 0xF0 then
      match r0 with
      | b1 :: b2 :: r2 =>
        if in_range (if ch =? 0xE0 then 0xA0 else 0x80)
                    (if ch =? 0xED then 0x9F else 0xBF) b1
           && is_cont b2 then
          option_map
            (cons (((ch * 64 + Byte.to_N b1) * 64 + Byte.to_N b2)
                   - ((0xE0 * 64 + 0x80) * 64 + 0x80)))
            (utf8_decode r2)
        else None
      | _ => None
      end
    else if ch <? 0xF5 then
      match r0 with
      | b1 :: b2 :: b3 :: r3 =>
        if in_range (if ch =? 0xF0 then 0x90 else 0x80)
                    (if ch =? 0xF4 then 0x8F else 0xBF) b1
           && is_cont b2 && is_cont b3 then
          option_map
            (cons ((((ch * 64 + Byte.to_N b1) * 64 + Byte.to_N b2) * 64
                    + Byte.to_N b3)
                   - (((0xF0 * 64 + 0x80) * 64 + 0x80) * 64 + 0x80)))
            (utf8_decode r3)
        else None
      | _ => None
      end
    else None
  end.

(** The bytes of one code point, [None] for a surrogate or a value that is
    not a code point. *)
Definition utf8_encode_char (c : N) : option bytes :=
  if c <? 0x80 then Some [byte_of c]
  else if c <? 0x800 then
    Some [byte_of (0xC0 + c / 64); byte_of (0x80 + c mod 64)]
  else if c <? 0x10000 then
    if (0xD800 <=? c) && (c <=? 0xDFFF) then None
    else Some [byte_of (0xE0 + c / 4096); byte_of (0x80 + (c / 64) mod 64);
               byte_of (0x80 + c mod 64)]
  else if c <? 0x110000 then
    Some [byte_of (0xF0 + c / 262144); byte_of (0x80 + (c / 4096) mod 64);
          byte_of (0x80 + (c / 64) mod 64); byte_of (0x80 + c mod 64)]
  else None.

Fixpoint utf8_encode (s : str) : option bytes :=
  match s with
  | [] => Some []
  | c :: s' =>
    match utf8_encode_char c, utf8_encode s' with
    | Some bc, Some bs => Some (bc ++ bs)
    | _, _ => None
    end
  end.

(** [s == t] on [str]. *)
Fixpoint str_eqb (s t : str) : bool :=
  match s, t with
  | [], [] => true
  | c :: s', d :: t' => (c =? d) && str_eqb s' t'
  | _, _ => false
  end.


(* ================================================================== *)
(** ** Programs: state passing with exceptions *)

(** What running a piece of code produces: a value, a raised exception, or
    nothing when a loop of the model was cut short ([OutOfFuel], shown below
    never to happen for the loops of the two programs). *)
Inductive outcome (A : Type) : Type :=
| Returns (a : A)
| Raises (e : exn)
| OutOfFuel.

Arguments Returns {A} a.
Arguments Raises {A} e.
Arguments OutOfFuel {A}.

Definition prog (S A : Type) : Type := S -> outcome A * S.

Definition ret {S A : Type} (a : A) : prog S A := fun s => (Returns a, s).

Definition raise {S A : Type} (e : exn) : prog S A := fun s => (Raises e, s).

Definition out_of_fuel {S A : Type} : prog S A := fun s => (OutOfFuel, s).

Definition bind {S A B : Type} (p : prog S A) (k : A -> prog S B) : prog S B :=
  fun s =>
    match p s with
    | (Returns a, s') => k a s'
    | (Raises e, s') => (Raises e, s')
    | (OutOfFuel, s') => (OutOfFuel, s')
    end.

(** [try: body / except Exception as e: handler e / else: orelse v], where
    [v] stands for the variables the body has bound. *)
Definition try_except_else {S A B : Type} (body : prog S A)
    (handler : exn -> prog S B) (orelse : A -> prog S B) : prog S B :=
  fun s =>
    match body s with
    | (Returns a, s') => orelse a s'
    | (Raises e, s') => handler e s'
    | (OutOfFuel, s') => (OutOfFuel, s')
    end.

(** [try: body / except Exception as e: handler e]. *)
Definition try_except {S A : Type} (body : prog S A)
    (handler : exn -> prog S A) : prog S A :=
  try_except_else body handler ret.

(** A computation of the interpreter that touches no state. *)
Definition pure {S A : Type} (r : exn + A) : prog S A :=
  match r with
  | inr a => ret a
  | inl e => raise e
  end.

(** Running a program on a component [T] of the state [S]. *)
Definition zoom {S T A : Type} (get : S -> T) (set : T -> S -> S)
    (p : prog T A) : prog S A :=
  fun s => let (r, t) := p (get s) in (r, set t s).

Declare Scope prog_scope.
Delimit Scope prog_scope with prog.
Notation "x <- p ;; k" := (bind p (fun x => k))
  (at level 61, p at next level, right associativity) : prog_scope.
Notation "p ;; k" := (bind p (fun _ => k))
  (at level 61, right associativity) : prog_scope.
Local Open Scope prog_scope.

(** [b.decode("utf-8")] and [s.encode()]. *)
Definition decode (b : bytes) : exn + str :=
  match utf8_decode b with
  | Some s => inr s
  | None => inl UnicodeDecodeError
  end.

Definition encode (s : str) : exn + bytes :=
  match utf8_encode s with
  | Some b => inr b
  | None => inl UnicodeEncodeError
  end.

(* ================================================================== *)
(** ** The socket

    One endpoint of a TCP connection, as the programs see it through
    [connect], [sendall], [recv] and [close].  What the network and the peer
    will do is part of the state: [sk_net] is the answer to [connect],
    [sk_rx] what the successive [recv] calls will find, [sk_tx] the fate of
    the successive [sendall] calls.  [sk_trace] records every call made on
    the socket, oldest first. *)

(** What a [recv] finds: bytes that have arrived, or a failure of the
    connection.  An exhausted [sk_rx] is the end of the stream: the peer has
    closed, [recv] returns [b'']. *)
Inductive rx_event : Type :=
| RxData (chunk : bytes)
| RxError (e : exn).

Inductive io_op : Type :=
| OpConnect (host : string) (port : N) (err : option exn)
| OpSendall (data : bytes) (err : option exn)
| OpRecv (bufsize : N) (res : exn + bytes)
| OpClose.

Record sock : Type := mkSock {
  sk_id : nat;                   (* identity of the socket object *)
  sk_closed : bool;              (* [close()] has been called *)
  sk_connected : bool;
  sk_net : option exn;           (* [None]: the server accepts *)
  sk_rx : list rx_event;
  sk_tx : list (option exn);     (* [None]: the bytes are written *)
  sk_trace : list io_op
}.

Definition log (op : io_op) (s : sock) : sock :=
  mkSock (sk_id s) (sk_closed s) (sk_connected s) (sk_net s) (sk_rx s)
         (sk_tx s) (sk_trace s ++ [op]).

Definition set_rx (rx : list rx_event) (s : sock) : sock :=
  mkSock (sk_id s) (sk_closed s) (sk_connected s) (sk_net s) rx
         (sk_tx s) (sk_trace s).

Definition set_tx (tx : list (option exn)) (s : sock) : sock :=
  mkSock (sk_id s) (sk_closed s) (sk_connected s) (sk_net s) (sk_rx s)
         tx (sk_trace s).

Definition set_connected (b : bool) (s : sock) : sock :=
  mkSock (sk_id s) (sk_closed s) b (sk_net s) (sk_rx s)
         (sk_tx s) (sk_trace s).

Definition set_closed (b : bool) (s : sock) : sock :=
  mkSock (sk_id s) b (sk_connected s) (sk_net s) (sk_rx s)
         (sk_tx s) (sk_trace s).

Definition EBADF : exn := OSError "[Errno 9] Bad file descriptor".
Definition ENOTCONN : exn :=
  OSError "[Errno 107] Transport endpoint is not connected".
Definition EISCONN : exn :=
  OSError "[Errno 106] Transport endpoint is already connected".
Definition EPIPE : exn := OSError "[Errno 32] Broken pipe".

Module Socket.

(** [socket.socket(AF_INET, SOCK_STREAM)]: a fresh, unconnected socket. *)
Definition socket (id : nat) (net : option exn) (rx : list rx_event)
    (tx : list (option exn)) : sock :=
  mkSock id false false net rx tx [].

(** [sock.connect((host, port))]. *)
Definition connect (host : string) (port : N) : prog sock unit :=
  fun s =>
    if sk_closed s then
      (Raises EBADF, log (OpConnect host port (Some EBADF)) s)
    else if sk_connected s then
      (Raises EISCONN, log (OpConnect host port (Some EISCONN)) s)
    else
      match sk_net s with
      | Some e => (Raises e, log (OpConnect host port (Some e)) s)
      | None =>
        (Returns tt, log (OpConnect host port None) (set_connected true s))
      end.

(** [sock.sendall(data)]. *)
Definition sendall (data : bytes) : prog sock unit :=
  fun s =>
    if sk_closed s then (Raises EBADF, log (OpSendall data (Some EBADF)) s)
    else if negb (sk_connected s) then
      (Raises EPIPE, log (OpSendall data (Some EPIPE)) s)
    else
      match sk_tx s with
      | Some e :: tx =>
        (Raises e, log (OpSendall data (Some e)) (set_tx tx s))
      | None :: tx => (Returns tt, log (OpSendall data None) (set_tx tx s))
      | [] => (Returns tt, log (OpSendall data None) s)
      end.

(** [sock.recv(bufsize)]: at most [bufsize] bytes of what has arrived; the
    rest stays for the next call. *)
Definition recv (bufsize : N) : prog sock bytes :=
  fun s =>
    if sk_closed s then
      (Raises EBADF, log (OpRecv bufsize (inl EBADF)) s)
    else if negb (sk_connected s) then
      (Raises ENOTCONN, log (OpRecv bufsize (inl ENOTCONN)) s)
    else
      match sk_rx s with
      | [] => (Returns [], log (OpRecv bufsize (inr [])) s)
      | RxError e :: rx =>
        (Raises e, log (OpRecv bufsize (inl e)) (set_rx rx s))
      | RxData chunk :: rx =>
        let rx' := match drop bufsize chunk with
                   | [] => rx
                   | rest => RxData rest :: rx
                   end in
        (Returns (take bufsize chunk),
         log (OpRecv bufsize (inr (take bufsize chunk))) (set_rx rx' s))
      end.

(** [sock.close()]. *)
Definition close : prog sock unit :=
  fun s => (Returns tt, log OpClose (set_closed true s)).

End Socket.

(** The number of bytes that have arrived and were not read yet. *)
Fixpoint rx_pending (rx : list rx_event) : nat :=
  match rx with
  | [] => O
  | RxData chunk :: rx' => (List.length chunk + rx_pending rx')%nat
  | RxError _ :: rx' => rx_pending rx'
  end.

(* ================================================================== *)
(** ** Reading a frame

    [Handler.read_bytes] (tcpserver.py) and [TcpSocketLocust.read_bytes]
    (tcplocust.py) have the same body; they differ in the attribute that
    holds the socket ([self.request], [self.socket]).  Here the body runs on
    the socket itself, and each class runs it on its attribute. *)

(** The [while len(data) < length] loop.  Every turn that goes on has read at
    least one byte, so [rx_pending] turns and one more are enough. *)
Fixpoint read_loop (fuel : nat) (length : N) (data : bytes)
    : prog sock bytes :=
  if len data <? length then
    match fuel with
    | O => out_of_fuel
    | S fuel' =>
      chunk <- Socket.recv (length - len data) ;;
      match chunk with
      | _ :: _ => read_loop fuel' length (data ++ chunk)
      | [] => raise (Exception "Error reading bytes.")
      end
    end
  else ret data.

Definition read_bytes (length : N) : prog sock bytes :=
  fun s => read_loop (S (rx_pending (sk_rx s))) length [] s.

(** Reading one frame: the three lines
    [header = self.read_bytes(4)],
    [length = int.from_bytes(header, 'little')],
    [data = self.read_bytes(length)]
    of [Handler.handle] and of [TcpSocketLocust.ping_pong], run on the
    socket itself. *)
Definition read_frame : prog sock bytes :=
  header <- read_bytes 4 ;;
  let length := from_bytes header in
  data <- read_bytes length ;;
  ret data.

(* ================================================================== *)
(** ** tcpserver.py *)

(** What [print] has written: a string, or the text of an exception. *)
Inductive printed : Type :=
| PrintStr (s : string)
| PrintExn (e : exn).

Module Handler.

(** The request handler of one accepted connection: [self.request] is the
    connected socket; [stdout] is what the handler has printed. *)
Record t : Type := mk {
  request : sock;
  stdout : list printed
}.

Definition set_request (s : sock) (h : t) : t := mk s (stdout h).

Definition on_request {A : Type} (p : prog sock A) : prog t A :=
  zoom request set_request p.

Definition print (x : printed) : prog t unit :=
  fun h => (Returns tt, mk (request h) (stdout h ++ [x])).

Definition read_bytes (length : N) : prog t bytes :=
  on_request (read_bytes length).

(** One turn of the [while True] loop of [handle]: the [try] statement.
    [true] goes to the next turn, [false] is [break]. *)
Definition handle_turn : prog t bool :=
  try_except
    (header <- read_bytes 4 ;;
     let length := from_bytes header in
     data <- read_bytes length ;;
     text <- pure (decode data) ;;
     if str_eqb text (lit "Ping") then
       let res := lit "Pong" in
       hdr <- pure (to_bytes (len res) 4) ;;
       on_request (Socket.sendall hdr) ;;
       payload <- pure (encode res) ;;
       on_request (Socket.sendall payload) ;;
       ret true
     else raise (Exception "Unrecognized protocol."))
    (fun e => print (PrintExn e) ;; ret false).

Fixpoint handle_loop (fuel : nat) : prog t unit :=
  match fuel with
  | O => out_of_fuel
  | S fuel' =>
    again <- handle_turn ;;
    if again then handle_loop fuel' else ret tt
  end.

(** [Handler.handle].  Every turn that goes on has read a frame, four bytes
    at least, so [rx_pending] turns and one more are enough. *)
Definition handle : prog t unit :=
  print (PrintStr "Handling a connection.") ;;
  fun h => handle_loop (S (rx_pending (sk_rx (request h)))) h.

End Handler.

(* ================================================================== *)
(** ** tcplocust.py *)

(** What the hooks [events.request_success] and [events.request_failure] are
    fired with.  [response_time] is in milliseconds. *)
Inductive event : Type :=
| request_success (request_type name : string) (response_time : Z)
                  (response_length : N)
| request_failure (request_type name : string) (response_time : Z)
                  (exception : exn).

Module TcpSocketLocust.

(** A simulated client: [self.socket], the class attributes [host] and
    [port], and its view of the process: the firings of the event hooks,
    oldest first, and the clock, read in whole milliseconds ([clock n] is
    the [n]-th reading of [time.time()], [ticks] the readings so far). *)
Record t : Type := mk {
  socket : sock;
  host : string;
  port : N;
  fired : list event;
  clock : nat -> Z;
  ticks : nat
}.

Definition set_socket (s : sock) (l : t) : t :=
  mk s (host l) (port l) (fired l) (clock l) (ticks l).

Definition on_socket {A : Type} (p : prog sock A) : prog t A :=
  zoom socket set_socket p.

(** [time.time()]. *)
Definition time_time : prog t Z :=
  fun l => (Returns (clock l (ticks l)),
            mk (socket l) (host l) (port l) (fired l) (clock l)
               (S (ticks l))).

(** [events.request_success.fire(...)], [events.request_failure.fire(...)]. *)
Definition fire (ev : event) : prog t unit :=
  fun l => (Returns tt,
            mk (socket l) (host l) (port l) (fired l ++ [ev]) (clock l)
               (ticks l)).

(** [TcpSocketLocust.__init__], on the socket that [socket.socket] makes. *)
Definition init (s : sock) (host : string) (port : N) (clock : nat -> Z)
    : t :=
  mk s host port [] clock O.

(** [TcpSocketLocust.connect]. *)
Definition connect (host : string) (port : N) : prog t bool :=
  start_time <- time_time ;;
  try_except_else
    (on_socket (Socket.connect host port))
    (fun e =>
       now <- time_time ;;
       let response_time := (now - start_time)%Z in
       fire (request_failure "tcp" "connect" response_time e) ;;
       raise e)
    (fun _ =>
       now <- time_time ;;
       let response_time := (now - start_time)%Z in
       fire (request_success "tcp" "connect" response_time 0) ;;
       ret true).

Definition read_bytes (length : N) : prog t bytes :=
  on_socket (read_bytes length).

(** The [try] block of [ping_pong]; it leaves [data] to the [else] block. *)
Definition ping_pong_try (msg : str) : prog t bytes :=
  hdr <- pure (to_bytes (len msg) 4) ;;
  on_socket (Socket.sendall hdr) ;;
  payload <- pure (encode msg) ;;
  on_socket (Socket.sendall payload) ;;
  header <- read_bytes 4 ;;
  let length := from_bytes header in
  data <- read_bytes length ;;
  text <- pure (decode data) ;;
  if negb (str_eqb text (lit "Pong")) then
    raise (Exception "Unrecognized protocol.")
  else ret data.

(** [TcpSocketLocust.ping_pong]. *)
Definition ping_pong : prog t unit :=
  let msg := lit "Ping" in
  start_time <- time_time ;;
  try_except_else
    (ping_pong_try msg)
    (fun e =>
       now <- time_time ;;
       let total_time := (now - start_time)%Z in
       fire (request_failure "tcp" "ping-pong" total_time e) ;;
       on_socket Socket.close ;;
       raise e)
    (fun data =>
       now <- time_time ;;
       let total_time := (now - start_time)%Z in
       fire (request_success "tcp" "ping-pong" total_time (len data))).

End TcpSocketLocust.

Module UserBehavior.

(** The task set of one simulated client: [self.locust] and the flag
    [self.running]. *)
Record t : Type := mk {
  locust : TcpSocketLocust.t;
  running : bool
}.

Definition set_locust (l : TcpSocketLocust.t) (u : t) : t :=
  mk l (running u).

Definition set_running (b : bool) : prog t unit :=
  fun u => (Returns tt, mk (locust u) b).

Definition on_locust {A : Type} (p : prog TcpSocketLocust.t A) : prog t A :=
  zoom locust set_locust p.

(** [UserBehavior.__init__]. *)
Definition init (l : TcpSocketLocust.t) : t := mk l true.

(** [UserBehavior.on_start]. *)
Definition on_start : prog t unit :=
  fun u =>
    try_except
      (on_locust (TcpSocketLocust.connect (TcpSocketLocust.host (locust u))
                                          (TcpSocketLocust.port (locust u))) ;;
       ret tt)
      (fun _ => set_running false)
      u.

(** The task [UserBehavior.ping_pong]. *)
Definition ping_pong : prog t unit :=
  fun u =>
    if running u then
      try_except
        (on_locust TcpSocketLocust.ping_pong)
        (fun _ => set_running false)
        u
    else ret tt u.

(** [n] invocations of the task in a row, as the scheduler of Locust makes
    them; it stops at the first one that does not return. *)
Fixpoint tasks (n : nat) : prog t unit :=
  match n with
  | O => ret tt
  | S n' => ping_pong ;; tasks n'
  end.

End UserBehavior.

(** [TestTcpLocust]: the class attributes of the test. *)
Module TestTcpLocust.
Definition host : string := "127.0.0.1".
Definition port : N := 50000.
Definition min_wait : N := 5000.
Definition max_wait : N := 9000.

Definition init (s : sock) (clock : nat -> Z) : TcpSocketLocust.t :=
  TcpSocketLocust.init s host port clock.
End TestTcpLocust.


(* ================================================================== *)
(** ** Vocabulary of the properties *)

Definition b_Ping : bytes := [x50; x69; x6e; x67].
Definition b_Pong : bytes := [x50; x6f; x6e; x67].

(** The payloads of the [sendall] calls that went through, in order: one
    element per call. *)
Fixpoint sent (ops : list io_op) : list bytes :=
  match ops with
  | [] => []
  | OpSendall data None :: ops' => data :: sent ops'
  | _ :: ops' => sent ops'
  end.

(** The bytes that the [recv] calls returned, in order. *)
Fixpoint received (ops : list io_op) : bytes :=
  match ops with
  | [] => []
  | OpRecv _ (inr data) :: ops' => data ++ received ops'
  | _ :: ops' => received ops'
  end.

Definition is_recv (op : io_op) : bool :=
  match op with
  | OpRecv _ _ => true
  | _ => false
  end.

Definition is_close (op : io_op) : bool :=
  match op with
  | OpClose => true
  | _ => false
  end.

Definition is_sendall (op : io_op) : bool :=
  match op with
  | OpSendall _ _ => true
  | _ => false
  end.

(** The [n] next [sendall] calls on [s] will go through. *)
Definition writable (n : nat) (s : sock) : bool :=
  negb (sk_closed s) && sk_connected s
  && forallb (fun r => match r with None => true | Some _ => false end)
             (firstn n (sk_tx s)).

(** The socket is the same object in the same condition: only the streams
    and the trace may differ. *)
Definition same_conn (s s' : sock) : Prop :=
  sk_id s' = sk_id s /\ sk_closed s' = sk_closed s
  /\ sk_connected s' = sk_connected s /\ sk_net s' = sk_net s.

Definition recv_result (r : outcome bytes) : exn + bytes :=
  match r with
  | Returns d => inr d
  | Raises e => inl e
  | OutOfFuel => inr []
  end.

Definition send_result (r : outcome unit) : option exn :=
  match r with
  | Raises e => Some e
  | _ => None
  end.

(** The stream delivers [chunks], one per [recv] at most, then [rest]. *)
Definition delivers (chunks : list bytes) (rest : list rx_event) (s : sock)
    : Prop :=
  sk_closed s = false /\ sk_connected s = true
  /\ sk_rx s = map RxData chunks ++ rest.

Definition nonempty (chunks : list bytes) : Prop :=
  Forall (fun c : bytes => c <> []) chunks.

(** The calls of a request/reply cycle proper: [sendall] and [recv]. *)
Definition io_only (ops : list io_op) : Prop :=
  forallb (fun op => is_sendall op || is_recv op) ops = true.

(** The elapsed time that a call started at clock reading [ticks l]
    reports: two readings are taken. *)
Definition elapsed (l : TcpSocketLocust.t) : Z :=
  (TcpSocketLocust.clock l (S (TcpSocketLocust.ticks l))
   - TcpSocketLocust.clock l (TcpSocketLocust.ticks l))%Z.

(** The two ways for [ping_pong] to end, on a client [l] whose cycle left
    the socket as [s].  It fails with [e]: it raises [e], having fired one
    failure event that carries [e] and then closed the socket.  It
    succeeds: it returns, having fired one success event of length 4, the
    socket as the cycle left it.  In both, the clock was read twice and
    nothing else of the client has changed. *)
Definition cycle_fails (l : TcpSocketLocust.t) (e : exn) (s : sock) : Prop :=
  TcpSocketLocust.ping_pong l
  = (Raises e,
     TcpSocketLocust.mk (log OpClose (set_closed true s))
       (TcpSocketLocust.host l) (TcpSocketLocust.port l)
       (TcpSocketLocust.fired l
        ++ [request_failure "tcp" "ping-pong" (elapsed l) e])
       (TcpSocketLocust.clock l) (S (S (TcpSocketLocust.ticks l)))).

Definition cycle_succeeds (l : TcpSocketLocust.t) (s : sock) : Prop :=
  TcpSocketLocust.ping_pong l
  = (Returns tt,
     TcpSocketLocust.mk s
       (TcpSocketLocust.host l) (TcpSocketLocust.port l)
       (TcpSocketLocust.fired l
        ++ [request_success "tcp" "ping-pong" (elapsed l) 4])
       (TcpSocketLocust.clock l) (S (S (TcpSocketLocust.ticks l)))).

(** The two ways for [connect] to end, on a client [l] whose [connect] call
    left the socket as [s]. *)
Definition connect_fails (host : string) (port : N) (l : TcpSocketLocust.t)
    (e : exn) (s : sock) : Prop :=
  TcpSocketLocust.connect host port l
  = (Raises e,
     TcpSocketLocust.mk s
       (TcpSocketLocust.host l) (TcpSocketLocust.port l)
       (TcpSocketLocust.fired l
        ++ [request_failure "tcp" "connect" (elapsed l) e])
       (TcpSocketLocust.clock l) (S (S (TcpSocketLocust.ticks l)))).

Definition connect_succeeds (host : string) (port : N)
    (l : TcpSocketLocust.t) (s : sock) : Prop :=
  TcpSocketLocust.connect host port l
  = (Returns true,
     TcpSocketLocust.mk s
       (TcpSocketLocust.host l) (TcpSocketLocust.port l)
       (TcpSocketLocust.fired l
        ++ [request_success "tcp" "connect" (elapsed l) 0])
       (TcpSocketLocust.clock l) (S (S (TcpSocketLocust.ticks l)))).

Definition sample_clock (n : nat) : Z := (1000 + 7 * Z.of_nat n)%Z.

(** A server connection on which [rx] arrives. *)
Definition server_on (rx : list rx_event) : Handler.t :=
  Handler.mk (mkSock 0 false true None rx [] []) [].

(** A connected client whose peer delivers [rx]. *)
Definition client_on (rx : list rx_event) : TcpSocketLocust.t :=
  TestTcpLocust.init (mkSock 1 false true None rx [] []) sample_clock.

(** A fresh client whose server refuses the connection. *)
Definition refused : exn := OSError "[Errno 111] Connection refused".

Definition refused_client : TcpSocketLocust.t :=
  TestTcpLocust.init (Socket.socket 1 (Some refused) [] []) sample_clock.

(** The peer answers one ["Pong"] frame, in two pieces. *)
Definition pong_client : TcpSocketLocust.t :=
  client_on [RxData [x04; x00; x00]; RxData [x00; x50; x6f; x6e; x67]].

(** The peer closes without answering, as the server does on a payload it
    does not know. *)
Definition silent_client : TcpSocketLocust.t := client_on [].

(** The [response_length] argument of a firing, when there is one, and its
    [exception] argument, when there is one. *)
Definition response_length_of (ev : event) : option N :=
  match ev with
  | request_success _ _ _ n => Some n
  | request_failure _ _ _ _ => None
  end.

Definition exception_of (ev : event) : option exn :=
  match ev with
  | request_success _ _ _ _ => None
  | request_failure _ _ _ e => Some e
  end.

Definition name_of (ev : event) : string :=
  match ev with
  | request_success _ name _ _ => name
  | request_failure _ name _ _ => name
  end.

(** The header of a payload of four bytes, and the frames of the two
    messages, as they travel. *)
Definition hdr4 : bytes := [x04; x00; x00; x00].
Definition frame_Ping : bytes := hdr4 ++ b_Ping.
Definition frame_Pong : bytes := hdr4 ++ b_Pong.

(** [k] copies of [f] in a row. *)
Definition frames (f : bytes) (k : nat) : bytes := List.concat (repeat f k).

(** The [sendall] payloads of [k] messages [m]: header, payload, header,
    payload, ... *)
Definition writes (m : bytes) (k : nat) : list bytes :=
  List.concat (repeat [hdr4; m] k).

Definition is_success (ev : event) : bool :=
  match ev with
  | request_success _ _ _ _ => true
  | request_failure _ _ _ _ => false
  end.

(** What the statistics see of an event: its name and its byte length. *)
Definition summary (ev : event) : string * option N :=
  (name_of ev, response_length_of ev).

(** A fresh client whose server accepts and then delivers [rx]. *)
Definition fresh_client (rx : list rx_event) : TcpSocketLocust.t :=
  TestTcpLocust.init (Socket.socket 1 None rx []) sample_clock.

(* ================================================================== *)
(** * Properties *)

(** ** Sequences and integers *)

Lemma take_firstn {A : Type} (n : N) (l : list A) :
  take n l = firstn (N.to_nat n) l.
Proof.
  revert n; induction l as [|x l IH]; intros n; simpl.
  - now rewrite firstn_nil.
  - destruct (N.eqb_spec n 0) as [->|Hn]; [reflexivity|].
    replace (N.to_nat n) with (S (N.to_nat (N.pred n))) by lia.
    simpl. now rewrite IH.
Qed.

Lemma drop_skipn {A : Type} (n : N) (l : list A) :
  drop n l = skipn (N.to_nat n) l.
Proof.
  revert n; induction l as [|x l IH]; intros n; simpl.
  - now rewrite skipn_nil.
  - destruct (N.eqb_spec n 0) as [->|Hn]; [reflexivity|].
    replace (N.to_nat n) with (S (N.to_nat (N.pred n))) by lia.
    simpl. now rewrite IH.
Qed.

Lemma take_drop {A : Type} (n : N) (l : list A) : take n l ++ drop n l = l.
Proof. rewrite take_firstn, drop_skipn. apply firstn_skipn. Qed.

Lemma len_app {A : Type} (l1 l2 : list A) : len (l1 ++ l2) = len l1 + len l2.
Proof. unfold len. rewrite length_app. lia. Qed.

Lemma len_nil_inv {A : Type} (l : list A) : len l = 0 -> l = [].
Proof. destruct l; [reflexivity|]. unfold len; simpl; lia. Qed.

Lemma len_take {A : Type} (n : N) (l : list A) : len (take n l) <= n.
Proof.
  unfold len. rewrite take_firstn, length_firstn. lia.
Qed.

Lemma take_all {A : Type} (n : N) (l : list A) : len l <= n -> take n l = l.
Proof.
  unfold len; intros H. rewrite take_firstn. apply firstn_all2. lia.
Qed.

Lemma drop_all {A : Type} (n : N) (l : list A) : len l <= n -> drop n l = [].
Proof.
  unfold len; intros H. rewrite drop_skipn. apply skipn_all2. lia.
Qed.

Lemma take_app_exact {A : Type} (l1 l2 : list A) : take (len l1) (l1 ++ l2) = l1.
Proof.
  unfold len. rewrite take_firstn, Nat2N.id.
  rewrite firstn_app, firstn_all, Nat.sub_diag. simpl. apply app_nil_r.
Qed.

Lemma drop_app_exact {A : Type} (l1 l2 : list A) : drop (len l1) (l1 ++ l2) = l2.
Proof.
  unfold len. rewrite drop_skipn, Nat2N.id.
  rewrite skipn_app, skipn_all, Nat.sub_diag. reflexivity.
Qed.

Lemma byte_to_N_lt (b : byte) : Byte.to_N b < 256.
Proof. pose proof (Byte.to_N_bounded b). lia. Qed.

Lemma to_N_byte_of (n : N) : Byte.to_N (byte_of n) = n mod 256.
Proof.
  unfold byte_of. destruct (Byte.of_N (n mod 256)) as [b|] eqn:E.
  - now apply Byte.to_of_N.
  - apply Byte.of_N_None_iff in E.
    pose proof (N.mod_upper_bound n 256). lia.
Qed.

Lemma byte_of_to_N (b : byte) : byte_of (Byte.to_N b) = b.
Proof.
  unfold byte_of. rewrite N.mod_small by apply byte_to_N_lt.
  now rewrite Byte.of_to_N.
Qed.

Lemma length_le_digits (k : nat) (n : N) : List.length (le_digits k n) = k.
Proof. revert n; induction k; intros n; simpl; [|rewrite IHk]; reflexivity. Qed.

(** [from_bytes] reads back the digits that [le_digits] wrote. *)
Lemma from_bytes_le_digits (k : nat) (n : N) :
  from_bytes (le_digits k n) = n mod 256 ^ N.of_nat k.
Proof.
  revert n; induction k as [|k IH]; intros n.
  - simpl. now rewrite N.mod_1_r.
  - cbn [le_digits from_bytes]. rewrite IH, to_N_byte_of.
    rewrite N.Div0.mod_mod.
    replace (N.of_nat (S k)) with (N.succ (N.of_nat k)) by lia.
    rewrite N.pow_succ_r', N.Div0.mod_mul_r. reflexivity.
Qed.

Lemma to_bytes_inv (n : N) (k : nat) (b : bytes) :
  to_bytes n k = inr b ->
  n < 256 ^ N.of_nat k /\ b = le_digits k n.
Proof.
  unfold to_bytes. destruct (N.ltb_spec n (256 ^ N.of_nat k)); [|discriminate].
  intros [= <-]. now split.
Qed.

(** A sequence of bytes is the digits of the integer it stands for. *)
Lemma le_digits_from_bytes (b : bytes) :
  le_digits (List.length b) (from_bytes b) = b.
Proof.
  induction b as [|x b IH]; [reflexivity|].
  cbn [List.length le_digits from_bytes].
  pose proof (byte_to_N_lt x) as Hx.
  replace ((Byte.to_N x + 256 * from_bytes b) mod 256) with (Byte.to_N x).
  - replace ((Byte.to_N x + 256 * from_bytes b) / 256) with (from_bytes b).
    + rewrite IH. f_equal. apply byte_of_to_N.
    + symmetry. rewrite N.add_comm, N.mul_comm, N.div_add_l by lia.
      rewrite N.div_small by exact Hx. lia.
  - symmetry. rewrite (N.mul_comm 256), N.Div0.mod_add.
    now apply N.mod_small.
Qed.

(** [int.from_bytes(n.to_bytes(k, 'little'), 'little') == n]. *)
Lemma from_bytes_to_bytes (n : N) (k : nat) (b : bytes) :
  to_bytes n k = inr b -> from_bytes b = n /\ List.length b = k.
Proof.
  intros H. apply to_bytes_inv in H as [Hn ->]. split.
  - rewrite from_bytes_le_digits. now apply N.mod_small.
  - apply length_le_digits.
Qed.

(** ** The codec on ASCII text *)

Lemma str_eqb_eq (s t : str) : str_eqb s t = true <-> s = t.
Proof.
  revert t; induction s as [|c s IH]; intros [|d t]; simpl;
    try (split; [discriminate|congruence]).
  - tauto.
  - rewrite andb_true_iff, N.eqb_eq, IH. split.
    + intros [-> ->]; reflexivity.
    + intros [= -> ->]; now split.
Qed.

Ltac codec_branch :=
  repeat match goal with
  | H : context [if ?c then _ else _] |- _ => destruct c eqn:?
  | H : context [match ?r with [] => _ | _ :: _ => _ end] |- _ =>
      destruct r
  | H : None = Some _ |- _ => discriminate H
  | H : Some (_ :: _) = Some [] |- _ => discriminate H
  | H : option_map _ ?o = Some _ |- _ => destruct o; simpl in H
  | H : Some _ = Some _ |- _ => injection H as H
  end.

(** A code point below 0x80 comes from one byte, of the same value: the
    sequences of two to four bytes decode to 0x80 and above. *)
Lemma utf8_decode_ascii_head (b : bytes) (c : N) (cs : str) :
  utf8_decode b = Some (c :: cs) -> c < 0x80 ->
  exists r, b = byte_of c :: r /\ utf8_decode r = Some cs.
Proof.
  destruct b as [|b0 r0]; [discriminate|].
  cbn [utf8_decode]. cbv zeta. intros H Hc.
  destruct (N.ltb_spec (Byte.to_N b0) 0x80) as [H0|H0].
  - destruct (utf8_decode r0) as [cs'|] eqn:E; [|discriminate].
    simpl in H. injection H as <- <-.
    exists r0. now rewrite byte_of_to_N.
  - exfalso. unfold is_cont, in_range in H. codec_branch;
      repeat match goal with
      | E : (_ && _) = true |- _ => apply andb_true_iff in E as [? ?]
      | E : (_ <=? _) = true |- _ => apply N.leb_le in E
      | E : (_ <? _) = false |- _ => apply N.ltb_ge in E
      | E : (_ <? _) = true |- _ => apply N.ltb_lt in E
      | E : (_ =? _) = true |- _ => apply N.eqb_eq in E
      | E : (_ =? _) = false |- _ => apply N.eqb_neq in E
      end; lia.
Qed.

Lemma utf8_decode_nil_inv (b : bytes) : utf8_decode b = Some [] -> b = [].
Proof.
  destruct b as [|b0 r0]; [reflexivity|].
  cbn [utf8_decode]. cbv zeta. intros H. exfalso. codec_branch.
Qed.

(** Text made of code points below 0x80 has one encoding: its own bytes. *)
Lemma utf8_decode_ascii (cs : str) (b : bytes) :
  Forall (fun c => c < 0x80) cs ->
  utf8_decode b = Some cs -> b = map byte_of cs.
Proof.
  intros Hcs; revert b; induction Hcs as [|c cs Hc _ IH]; intros b H.
  - now apply utf8_decode_nil_inv.
  - destruct (utf8_decode_ascii_head _ _ _ H Hc) as (r & -> & Hr).
    simpl. f_equal. now apply IH.
Qed.

(** [data.decode("utf-8") == "Ping"] holds of the four bytes [b"Ping"] and
    of nothing else; likewise for ["Pong"]. *)
Lemma decode_Ping (data : bytes) :
  decode data = inr (lit "Ping") <-> data = b_Ping.
Proof.
  split; [|intros ->; reflexivity].
  unfold decode. destruct (utf8_decode data) as [s|] eqn:E; [|discriminate].
  intros [= ->]. apply utf8_decode_ascii in E; [exact E|].
  repeat constructor.
Qed.

Lemma decode_Pong (data : bytes) :
  decode data = inr (lit "Pong") <-> data = b_Pong.
Proof.
  split; [|intros ->; reflexivity].
  unfold decode. destruct (utf8_decode data) as [s|] eqn:E; [|discriminate].
  intros [= ->]. apply utf8_decode_ascii in E; [exact E|].
  repeat constructor.
Qed.

(** ** What a trace shows *)

Lemma sent_app (ops1 ops2 : list io_op) :
  sent (ops1 ++ ops2) = sent ops1 ++ sent ops2.
Proof.
  induction ops1 as [|[| d [e|] | |] ops1 IH]; simpl; rewrite ?IH; reflexivity.
Qed.

Lemma received_app (ops1 ops2 : list io_op) :
  received (ops1 ++ ops2) = received ops1 ++ received ops2.
Proof.
  induction ops1 as [|[| | n [e|d] |] ops1 IH]; simpl;
    rewrite ?IH, ?app_assoc; reflexivity.
Qed.

Lemma sent_recv_only (ops : list io_op) :
  forallb is_recv ops = true -> sent ops = [].
Proof.
  induction ops as [|[] ops IH]; simpl; try discriminate; auto.
Qed.

Lemma same_conn_refl (s : sock) : same_conn s s.
Proof. repeat split. Qed.

Lemma same_conn_trans (s1 s2 s3 : sock) :
  same_conn s1 s2 -> same_conn s2 s3 -> same_conn s1 s3.
Proof. unfold same_conn. intuition congruence. Qed.

(** ** The socket calls *)

Lemma recv_inv (n : N) (s : sock) :
  match Socket.recv n s with
  | (r, s') =>
    same_conn s s' /\ sk_tx s' = sk_tx s
    /\ sk_trace s' = sk_trace s ++ [OpRecv n (recv_result r)]
    /\ match r with
       | Returns d =>
         (rx_pending (sk_rx s') + List.length d = rx_pending (sk_rx s))%nat
         /\ len d <= n /\ sk_closed s = false /\ sk_connected s = true
       | Raises _ => True
       | OutOfFuel => False
       end
  end.
Proof.
  unfold Socket.recv.
  destruct (sk_closed s) eqn:Hc; [repeat split|].
  destruct (sk_connected s) eqn:Hn; simpl; [|repeat split].
  destruct (sk_rx s) as [|[chunk|e] rx] eqn:Hrx; simpl.
  - repeat split; [now rewrite Hrx | unfold len; simpl; lia].
  - repeat split; auto.
    + rewrite <- (take_drop n chunk) at 3. rewrite length_app.
      destruct (drop n chunk); simpl; lia.
    + apply len_take.
  - repeat split.
Qed.

Lemma sendall_inv (data : bytes) (s : sock) :
  match Socket.sendall data s with
  | (r, s') =>
    same_conn s s' /\ sk_rx s' = sk_rx s
    /\ sk_trace s' = sk_trace s ++ [OpSendall data (send_result r)]
    /\ match r with
       | Returns _ => sk_closed s = false /\ sk_connected s = true
       | Raises _ => True
       | OutOfFuel => False
       end
  end.
Proof.
  unfold Socket.sendall.
  destruct (sk_closed s) eqn:Hc; [repeat split|].
  destruct (sk_connected s) eqn:Hn; simpl; [|repeat split].
  destruct (sk_tx s) as [|[e|] tx]; repeat split; auto.
Qed.

Lemma sendall_writable (data : bytes) (n : nat) (s : sock) :
  writable (S n) s = true ->
  exists s', Socket.sendall data s = (Returns tt, s')
    /\ same_conn s s' /\ sk_rx s' = sk_rx s
    /\ sk_trace s' = sk_trace s ++ [OpSendall data None]
    /\ writable n s' = true.
Proof.
  unfold writable, Socket.sendall. intros H.
  apply andb_true_iff in H as [H Htx]. apply andb_true_iff in H as [Hc Hn].
  apply negb_true_iff in Hc. rewrite Hc, Hn. simpl.
  destruct (sk_tx s) as [|[e|] tx] eqn:E; simpl in Htx; [|discriminate|].
  - eexists; split; [reflexivity|]. simpl.
    rewrite Hc, Hn, E, firstn_nil. repeat split; auto.
  - eexists; split; [reflexivity|]. simpl.
    rewrite Hc, Hn. repeat split; auto.
Qed.

(** ** [read_bytes] *)

(** What the loop leaves behind, whatever its outcome: the same connection,
    nothing sent, a trace longer by [recv] calls only; when it returns, the
    result is [data] followed by the bytes those calls returned, [length]
    bytes in all. *)
Lemma read_loop_inv (fuel : nat) (length : N) (data : bytes) (s : sock) :
  match read_loop fuel length data s with
  | (r, s') =>
    same_conn s s' /\ sk_tx s' = sk_tx s
    /\ exists ops,
        sk_trace s' = sk_trace s ++ ops /\ forallb is_recv ops = true
        /\ match r with
           | Returns d =>
             d = data ++ received ops
             /\ (len data <= length -> len d = length)
             /\ (rx_pending (sk_rx s') + List.length (received ops)
                 = rx_pending (sk_rx s))%nat
           | Raises _ => True
           | OutOfFuel => (rx_pending (sk_rx s) >= fuel)%nat
           end
  end.
Proof.
  revert data s; induction fuel as [|fuel IH]; intros data s;
    cbn [read_loop]; destruct (N.ltb_spec (len data) length) as [Hlt|Hge].
  - split; [apply same_conn_refl|]. split; [reflexivity|].
    exists []. rewrite app_nil_r. repeat split. lia.
  - split; [apply same_conn_refl|]. split; [reflexivity|].
    exists []. rewrite !app_nil_r. repeat split; simpl; lia.
  - unfold bind. pose proof (recv_inv (length - len data) s) as Hr.
    destruct (Socket.recv (length - len data) s) as [[chunk|e|] s1];
      destruct Hr as (Hc & Htx & Htr & Hr); [|eauto 8|contradiction].
    destruct Hr as (Hrx & Hle & _).
    destruct chunk as [|b chunk].
    + split; [exact Hc|]. split; [exact Htx|]. eexists; repeat split; eauto.
    + specialize (IH (data ++ b :: chunk) s1).
      destruct (read_loop fuel length (data ++ b :: chunk) s1) as [r s2].
      destruct IH as (Hc' & Htx' & ops & Htr' & Hops & IH).
      split; [eapply same_conn_trans; eauto|]. split; [congruence|].
      exists (OpRecv (length - len data) (inr (b :: chunk)) :: ops).
      split; [rewrite Htr', Htr, <- app_assoc; reflexivity|].
      split; [exact Hops|].
      destruct r as [d|e|].
      * destruct IH as (Hd & Hlen & Hp). cbn [received].
        split; [rewrite Hd, <- app_assoc; reflexivity|]. split.
        -- intros _. apply Hlen. rewrite len_app. lia.
        -- rewrite length_app. lia.
      * exact I.
      * simpl in Hrx. lia.
  - split; [apply same_conn_refl|]. split; [reflexivity|].
    exists []. rewrite !app_nil_r. repeat split; simpl; lia.
Qed.

(** [read_bytes] always comes to an end. *)
Lemma read_bytes_total (length : N) (s : sock) :
  fst (read_bytes length s) <> OutOfFuel.
Proof.
  unfold read_bytes.
  pose proof (read_loop_inv (S (rx_pending (sk_rx s))) length [] s) as H.
  destruct (read_loop (S (rx_pending (sk_rx s))) length [] s) as [[d|e|] s'];
    simpl; try discriminate.
  destruct H as (_ & _ & ops & _ & _ & H). lia.
Qed.

(** What [read_bytes] leaves behind; when it returns, the result is the
    [length] bytes that its [recv] calls returned. *)
Lemma read_bytes_inv (length : N) (s : sock) :
  match read_bytes length s with
  | (r, s') =>
    same_conn s s' /\ sk_tx s' = sk_tx s
    /\ exists ops,
        sk_trace s' = sk_trace s ++ ops /\ forallb is_recv ops = true
        /\ match r with
           | Returns d =>
             d = received ops /\ len d = length
             /\ (rx_pending (sk_rx s') + List.length d
                 = rx_pending (sk_rx s))%nat
           | Raises _ => True
           | OutOfFuel => False
           end
  end.
Proof.
  pose proof (read_bytes_total length s) as Ht. unfold read_bytes in *.
  pose proof (read_loop_inv (S (rx_pending (sk_rx s))) length [] s) as H.
  destruct (read_loop (S (rx_pending (sk_rx s))) length [] s) as [r s'].
  destruct H as (Hc & Htx & ops & Htr & Hops & H).
  split; [exact Hc|]. split; [exact Htx|]. exists ops.
  split; [exact Htr|]. split; [exact Hops|].
  destruct r as [d|e|]; [|exact I|now apply Ht].
  destruct H as (Hd & Hlen & Hp). simpl in Hd. subst d.
  repeat split; [apply Hlen; unfold len; simpl; lia|exact Hp].
Qed.

(** *** Reading from a stream that arrives in chunks *)

Lemma rx_pending_chunks (chunks : list bytes) (rest : list rx_event) :
  nonempty chunks ->
  (List.length chunks <= rx_pending (map RxData chunks ++ rest))%nat.
Proof.
  induction 1 as [|c chunks Hc _ IH]; simpl; [lia|].
  destruct c; [congruence|simpl; lia].
Qed.

Lemma app_split_le {A : Type} (c rest want extra : list A) :
  c ++ rest = want ++ extra -> len c <= len want ->
  exists want', want = c ++ want' /\ rest = want' ++ extra.
Proof.
  intros H Hle. apply app_eq_app in H as [l [[-> ->]|[-> ->]]].
  - rewrite len_app in Hle. assert (l = []) by (apply len_nil_inv; lia).
    subst l. exists []. now rewrite !app_nil_r.
  - now exists l.
Qed.

Lemma app_split_gt {A : Type} (c rest want extra : list A) :
  c ++ rest = want ++ extra -> len want < len c ->
  exists left, c = want ++ left /\ left <> [] /\ extra = left ++ rest.
Proof.
  intros H Hgt. apply app_eq_app in H as [l [[-> ->]|[-> ->]]].
  - exists l. repeat split. intros ->. rewrite app_nil_r in Hgt. lia.
  - rewrite len_app in Hgt. lia.
Qed.

(** When the bytes [want] that the loop still needs are at the head of the
    stream, however they are cut into chunks, the loop returns them and
    leaves the stream at the byte after them. *)
Lemma read_loop_chunks (chunks : list bytes) :
  forall (fuel : nat) (length : N) (data want extra : bytes)
         (rest : list rx_event) (s : sock),
    delivers chunks rest s -> nonempty chunks ->
    List.concat chunks = want ++ extra ->
    len data + len want = length ->
    (List.length chunks < fuel)%nat ->
    exists s' chunks',
      read_loop fuel length data s = (Returns (data ++ want), s')
      /\ delivers chunks' rest s' /\ nonempty chunks'
      /\ List.concat chunks' = extra.
Proof.
  induction chunks as [|c chunks IH];
    intros fuel length data want extra rest s (Hc & Hn & Hrx) Hne Hcat Hlen
           Hfuel.
  - simpl in Hcat. symmetry in Hcat. apply app_eq_nil in Hcat as [-> ->].
    exists s, []. destruct fuel; [lia|]. cbn [read_loop].
    replace (len data <? length) with false
      by (symmetry; apply N.ltb_ge; unfold len in *; simpl in *; lia).
    rewrite app_nil_r. repeat split; auto.
  - destruct fuel as [|fuel]; [lia|]. cbn [read_loop].
    destruct (N.ltb_spec (len data) length) as [Hlt|Hge].
    + (* one more [recv] *)
      pose proof (Forall_inv Hne) as Hc0.
      pose proof (Forall_inv_tail Hne) as Hne'.
      unfold bind, Socket.recv. rewrite Hc, Hn, Hrx. cbn [map app negb].
      replace (length - len data) with (len want) by lia.
      simpl in Hcat.
      destruct (N.le_gt_cases (len c) (len want)) as [Hle|Hgt].
      * (* the whole chunk is taken *)
        rewrite (take_all _ _ Hle), (drop_all _ _ Hle).
        destruct c as [|b c]; [congruence|].
        assert (Hw : exists want', want = (b :: c) ++ want'
                                   /\ List.concat chunks = want' ++ extra)
          by (apply (app_split_le _ _ _ _ Hcat Hle)).
        destruct Hw as (want' & -> & Hcat').
        destruct (IH fuel length (data ++ b :: c) want' extra rest
                     (log (OpRecv (len ((b :: c) ++ want'))
                                  (inr (b :: c)))
                          (set_rx (map RxData chunks ++ rest) s)))
          as (s' & chunks' & Hrun & Hd & Hne'' & Hcat''); auto.
        -- repeat split; auto.
        -- rewrite !len_app in *. lia.
        -- simpl in Hfuel. lia.
        -- exists s', chunks'. rewrite Hrun, <- app_assoc. auto.
      * (* the chunk holds more than what is needed *)
        destruct (app_split_gt _ _ _ _ Hcat Hgt) as (left & Ec & Hleft & Hex).
        rewrite Ec, take_app_exact, drop_app_exact.
        destruct left as [|r0 rs]; [congruence|].
        destruct want as [|w want]; [unfold len in Hlt, Hlen; simpl in *; lia|].
        assert (Hdone : (len (data ++ w :: want) <? length) = false)
          by (apply N.ltb_ge; rewrite len_app; lia).
        destruct fuel; cbn [read_loop]; rewrite Hdone;
          (eexists; exists ((r0 :: rs) :: chunks); split; [reflexivity|];
           split; [repeat split; auto|];
           split; [constructor; [discriminate|assumption]|];
           symmetry; exact Hex).
    + (* nothing is needed *)
      assert (want = []) by (apply len_nil_inv; lia). subst want.
      exists s, (c :: chunks). rewrite app_nil_r.
      repeat split; auto.
Qed.

(** When the stream ends before the loop has its [length] bytes, the loop
    raises. *)
Lemma read_loop_eof (chunks : list bytes) :
  forall (fuel : nat) (length : N) (data : bytes) (s : sock),
    delivers chunks [] s ->
    len data + len (List.concat chunks) < length ->
    (rx_pending (map RxData chunks) < fuel)%nat ->
    exists s',
      read_loop fuel length data s
      = (Raises (Exception "Error reading bytes."), s')
      /\ exists ops n, sk_trace s' = sk_trace s ++ ops ++ [OpRecv n (inr [])].
Proof.
  induction chunks as [|c chunks IH];
    intros fuel length data s (Hc & Hn & Hrx) Hlen Hfuel;
    (destruct fuel as [|fuel]; [lia|]); cbn [read_loop];
    replace (len data <? length) with true by (symmetry; apply N.ltb_lt; lia);
    unfold bind, Socket.recv; rewrite Hc, Hn, Hrx; cbn [map app negb].
  - eexists; split; [reflexivity|]. exists [], (length - len data).
    reflexivity.
  - simpl in Hlen. rewrite len_app in Hlen.
    assert (Hle : len c <= length - len data) by lia.
    rewrite (take_all _ _ Hle), (drop_all _ _ Hle).
    destruct c as [|b c].
    + eexists; split; [reflexivity|]. exists [], (length - len data).
      reflexivity.
    + destruct (IH fuel length (data ++ b :: c)
                   (log (OpRecv (length - len data) (inr (b :: c)))
                        (set_rx (map RxData chunks ++ []) s)))
        as (s' & Hrun & ops & n & Htr).
      * repeat split; auto.
      * rewrite len_app. lia.
      * simpl in Hfuel. lia.
      * exists s'. split; [exact Hrun|].
        exists (OpRecv (length - len data) (inr (b :: c)) :: ops), n.
        rewrite Htr. simpl. now rewrite <- !app_assoc.
Qed.

Lemma read_bytes_chunks (chunks : list bytes) (want extra : bytes)
    (rest : list rx_event) (s : sock) :
  delivers chunks rest s -> nonempty chunks ->
  List.concat chunks = want ++ extra ->
  exists s' chunks',
    read_bytes (len want) s = (Returns want, s')
    /\ delivers chunks' rest s' /\ nonempty chunks'
    /\ List.concat chunks' = extra.
Proof.
  intros Hd Hne Hcat. unfold read_bytes.
  apply (read_loop_chunks chunks _ (len want) [] want extra rest s);
    auto.
  destruct Hd as (_ & _ & ->).
  pose proof (rx_pending_chunks chunks rest Hne). lia.
Qed.

Lemma read_bytes_eof (chunks : list bytes) (length : N) (s : sock) :
  delivers chunks [] s ->
  len (List.concat chunks) < length ->
  exists s',
    read_bytes length s = (Raises (Exception "Error reading bytes."), s')
    /\ exists ops n, sk_trace s' = sk_trace s ++ ops ++ [OpRecv n (inr [])].
Proof.
  intros Hd Hlen. unfold read_bytes.
  apply (read_loop_eof chunks); auto.
  destruct Hd as (_ & _ & ->). rewrite app_nil_r. lia.
Qed.

(** What [read_frame] leaves behind; when it returns, the [recv] calls have
    returned a header and then the payload, as long as the header says. *)
Lemma read_frame_inv (s : sock) :
  match read_frame s with
  | (r, s') =>
    same_conn s s' /\ sk_tx s' = sk_tx s
    /\ exists ops,
        sk_trace s' = sk_trace s ++ ops /\ forallb is_recv ops = true
        /\ match r with
           | Returns d =>
             exists header,
               received ops = header ++ d /\ len header = 4
               /\ from_bytes header = len d
               /\ (rx_pending (sk_rx s') + 4 + List.length d
                   = rx_pending (sk_rx s))%nat
           | Raises _ => True
           | OutOfFuel => False
           end
  end.
Proof.
  unfold read_frame, bind.
  pose proof (read_bytes_inv 4 s) as H1.
  destruct (read_bytes 4 s) as [[header|e|] s1];
    destruct H1 as (Hc1 & Htx1 & ops1 & Htr1 & Hops1 & H1);
    [|eauto 8|contradiction].
  destruct H1 as (Hh & Hlen & Hp1).
  pose proof (read_bytes_inv (from_bytes header) s1) as H2.
  destruct (read_bytes (from_bytes header) s1) as [[d|e|] s2];
    destruct H2 as (Hc2 & Htx2 & ops2 & Htr2 & Hops2 & H2);
    (split; [eapply same_conn_trans; eauto|]);
    (split; [congruence|]);
    (exists (ops1 ++ ops2));
    (split; [rewrite Htr2, Htr1, app_assoc; reflexivity|]);
    (split; [rewrite forallb_app, Hops1, Hops2; reflexivity|]);
    [|exact I|exact H2].
  destruct H2 as (Hd & Hlen2 & Hp2). unfold ret.
  exists header. rewrite received_app, <- Hh, <- Hd.
  repeat split; auto.
  assert (List.length header = 4%nat) by (unfold len in Hlen; lia). lia.
Qed.

Lemma zoom_run {S T A : Type} (get : S -> T) (set : T -> S -> S)
    (p : prog T A) (s : S) :
  zoom get set p s = (fst (p (get s)), set (snd (p (get s))) s).
Proof. unfold zoom. now destruct (p (get s)). Qed.

(* ================================================================== *)
(** ** The framed channel *)

(** C1 (round trip, partial reads).  Let [P] be a payload whose length fits
    the 4-byte header, and let the stream deliver the frame of [P], the
    header [len(P).to_bytes(4, 'little')] followed by [P], cut into non-empty
    chunks in any way (one byte at a time is one such way), possibly
    followed by further bytes [extra].  Then [read_frame] returns exactly [P]
    and leaves the stream at the first byte of [extra]. *)
Theorem read_frame_roundtrip (P hdr extra : bytes) (chunks : list bytes)
    (rest : list rx_event) (s : sock) :
  to_bytes (len P) 4 = inr hdr ->
  delivers chunks rest s -> nonempty chunks ->
  List.concat chunks = hdr ++ P ++ extra ->
  exists s' chunks',
    read_frame s = (Returns P, s')
    /\ delivers chunks' rest s' /\ nonempty chunks'
    /\ List.concat chunks' = extra.
Proof.
  intros Hhdr Hd Hne Hcat.
  apply from_bytes_to_bytes in Hhdr as [Hval Hlen].
  destruct (read_bytes_chunks chunks hdr (P ++ extra) rest s Hd Hne Hcat)
    as (s1 & chunks1 & Hrun1 & Hd1 & Hne1 & Hcat1).
  destruct (read_bytes_chunks chunks1 P extra rest s1 Hd1 Hne1 Hcat1)
    as (s2 & chunks2 & Hrun2 & Hd2 & Hne2 & Hcat2).
  exists s2, chunks2. unfold read_frame, bind.
  replace 4 with (len hdr) by (unfold len; rewrite Hlen; reflexivity).
  rewrite Hrun1, Hval, Hrun2. auto.
Qed.

(** The frame of ["Ping"] arriving one byte at a time, followed by one byte
    of the next frame. *)
Lemma read_frame_roundtrip_witness :
  let chunks := [[x04]; [x00]; [x00]; [x00]; [x50]; [x69]; [x6e]; [x67];
                 [x04]] in
  let s := mkSock 0 false true None (map RxData chunks) [] [] in
  (to_bytes (len b_Ping) 4 = inr [x04; x00; x00; x00]
   /\ delivers chunks [] s /\ nonempty chunks
   /\ List.concat chunks = [x04; x00; x00; x00] ++ b_Ping ++ [x04])
  /\ exists s' chunks',
      read_frame s = (Returns b_Ping, s')
      /\ delivers chunks' [] s' /\ nonempty chunks'
      /\ List.concat chunks' = [x04].
Proof.
  intros chunks s.
  assert (H1 : to_bytes (len b_Ping) 4 = inr [x04; x00; x00; x00])
    by reflexivity.
  assert (H2 : delivers chunks [] s) by (repeat split).
  assert (H3 : nonempty chunks) by (repeat constructor; discriminate).
  assert (H4 : List.concat chunks = [x04; x00; x00; x00] ++ b_Ping ++ [x04])
    by reflexivity.
  split; [auto|].
  exact (read_frame_roundtrip b_Ping [x04; x00; x00; x00] [x04] chunks [] s
           H1 H2 H3 H4).
Defined.

(** C3 (end of stream).  On a stream that delivers [chunks] and then ends:
    [read_bytes n] raises [Exception("Error reading bytes.")] whenever the
    stream holds fewer than [n] bytes, and so does [read_frame] whenever the
    stream ends before the frame is complete, in the header (fewer than 4
    bytes) or in the payload (fewer bytes after the header than it
    announces).  The last call in the trace is the [recv] that returned
    [b'']. *)
Theorem read_frame_end_of_stream (chunks : list bytes) (s : sock) (n : N) :
  delivers chunks [] s ->
  (len (List.concat chunks) < n ->
   exists s',
     read_bytes n s = (Raises (Exception "Error reading bytes."), s')
     /\ exists ops k, sk_trace s' = sk_trace s ++ ops ++ [OpRecv k (inr [])])
  /\ (nonempty chunks ->
      len (List.concat chunks)
      < 4 + from_bytes (take 4 (List.concat chunks)) ->
      exists s',
        read_frame s = (Raises (Exception "Error reading bytes."), s')
        /\ exists ops k,
            sk_trace s' = sk_trace s ++ ops ++ [OpRecv k (inr [])]).
Proof.
  intros Hd. split; [now apply read_bytes_eof|].
  intros Hne Hshort. unfold read_frame, bind.
  destruct (N.lt_ge_cases (len (List.concat chunks)) 4) as [H4|H4].
  - destruct (read_bytes_eof chunks 4 s Hd H4) as (s' & -> & Htr).
    now exists s'.
  - pose proof (take_drop 4 (List.concat chunks)) as Hsplit.
    set (hdr := take 4 (List.concat chunks)) in *.
    set (part := drop 4 (List.concat chunks)) in *.
    assert (Hlen : len hdr = 4).
    { unfold hdr, len in *. rewrite take_firstn, length_firstn. lia. }
    destruct (read_bytes_chunks chunks hdr part [] s Hd Hne
                (eq_sym Hsplit))
      as (s1 & chunks1 & Hrun1 & Hd1 & Hne1 & Hcat1).
    rewrite Hlen in Hrun1. rewrite Hrun1.
    destruct (read_bytes_eof chunks1 (from_bytes hdr) s1 Hd1)
      as (s2 & -> & ops2 & k & Htr2).
    { rewrite Hcat1. rewrite <- Hsplit, len_app in Hshort. lia. }
    exists s2. split; [reflexivity|].
    pose proof (read_bytes_inv 4 s) as Hinv. rewrite Hrun1 in Hinv.
    destruct Hinv as (_ & _ & ops1 & Htr1 & _).
    exists (ops1 ++ ops2), k. rewrite Htr2, Htr1, <- !app_assoc. reflexivity.
Qed.

(** A header that announces 5 bytes, then 3 bytes, then the end. *)
Lemma read_frame_end_of_stream_witness :
  let chunks := [[x05; x00]; [x00; x00; x50]; [x69; x6e]] in
  let s := mkSock 0 false true None (map RxData chunks) [] [] in
  (delivers chunks [] s /\ nonempty chunks
   /\ len (List.concat chunks) < 8
   /\ len (List.concat chunks)
      < 4 + from_bytes (take 4 (List.concat chunks)))
  /\ (exists s',
        read_bytes 8 s = (Raises (Exception "Error reading bytes."), s')
        /\ exists ops k,
            sk_trace s' = sk_trace s ++ ops ++ [OpRecv k (inr [])])
  /\ (exists s',
        read_frame s = (Raises (Exception "Error reading bytes."), s')
        /\ exists ops k,
            sk_trace s' = sk_trace s ++ ops ++ [OpRecv k (inr [])]).
Proof.
  intros chunks s.
  assert (H1 : delivers chunks [] s) by (repeat split).
  assert (H2 : nonempty chunks) by (repeat constructor; discriminate).
  assert (H3 : len (List.concat chunks) < 8) by reflexivity.
  assert (H4 : len (List.concat chunks)
               < 4 + from_bytes (take 4 (List.concat chunks)))
    by reflexivity.
  split; [auto|].
  destruct (read_frame_end_of_stream chunks s 8 H1) as [Hb Hf].
  split; [exact (Hb H3)|exact (Hf H2 H4)].
Defined.

(** C9 (nothing to read).  [read_bytes(0)], in either class, returns [b'']
    and leaves the socket as it was: no [recv] is made, so nothing can fail,
    whatever the state of the socket, closed or at the end of its stream.
    This is the payload read after a header that announces 0 bytes. *)
Theorem read_bytes_zero :
  (forall s : sock, read_bytes 0 s = (Returns [], s))
  /\ (forall h : Handler.t, Handler.read_bytes 0 h = (Returns [], h))
  /\ (forall l : TcpSocketLocust.t,
        TcpSocketLocust.read_bytes 0 l = (Returns [], l))
  /\ (forall s : sock,
        read_bytes (from_bytes [x00; x00; x00; x00]) s = (Returns [], s)).
Proof.
  repeat split; intros; try reflexivity.
  - now destruct h.
  - now destruct l.
Qed.

(* ================================================================== *)
(** ** The server *)

Arguments Socket.recv : simpl never.
Arguments Socket.sendall : simpl never.
Arguments Socket.connect : simpl never.
Arguments Socket.close : simpl never.
Arguments read_loop : simpl never.
Arguments read_bytes : simpl never.
Arguments read_frame : simpl never.

(** Case analysis on the next socket call of the goal, with what the call
    leaves behind. *)
Ltac run_sendall H :=
  match goal with
  | |- context [Socket.sendall ?d ?s] =>
    pose proof (sendall_inv d s) as H;
    destruct (Socket.sendall d s) as [[[]|?exc|] ?sk];
    cbn in H |- *;
    [|try exact I|
     try (exfalso; destruct H as (_ & _ & _ & H); exact H)]
  end.

Ltac case_str_eqb H :=
  match goal with
  | |- context [str_eqb ?a ?b] => destruct (str_eqb a b) eqn:H
  end.

Ltac run_read_frame H :=
  match goal with
  | |- context [read_frame ?s] =>
    pose proof (read_frame_inv s) as H;
    destruct (read_frame s) as [[?data|?exc|] ?sk];
    cbn in H |- *;
    [|try exact I|
     try (exfalso; destruct H as (_ & _ & ? & _ & _ & H); exact H)]
  end.

(** The turn of the server loop, with its three reading lines seen as
    [read_frame] on [self.request]. *)
Lemma handle_turn_framed (h : Handler.t) :
  Handler.handle_turn h
  = try_except
      (data <- Handler.on_request read_frame ;;
       text <- pure (decode data) ;;
       if str_eqb text (lit "Ping") then
         let res := lit "Pong" in
         hdr <- pure (to_bytes (len res) 4) ;;
         Handler.on_request (Socket.sendall hdr) ;;
         payload <- pure (encode res) ;;
         Handler.on_request (Socket.sendall payload) ;;
         ret true
       else raise (Exception "Unrecognized protocol."))
      (fun e => Handler.print (PrintExn e) ;; ret false)
      h.
Proof.
  unfold Handler.handle_turn, Handler.read_bytes, try_except,
    try_except_else, bind, Handler.on_request, zoom, read_frame, bind, ret.
  destruct (read_bytes 4 (Handler.request h)) as [[header|e|] s1]; cbn;
    try reflexivity.
  destruct (read_bytes (from_bytes header) s1) as [[data|e|] s2];
    reflexivity.
Qed.

(** A turn of the server loop never escapes the [try]: it goes on or it
    breaks.  When it goes on, a whole frame has been read. *)
Lemma handle_turn_inv (h : Handler.t) :
  match Handler.handle_turn h with
  | (Returns true, h') =>
    (rx_pending (sk_rx (Handler.request h')) + 4
     <= rx_pending (sk_rx (Handler.request h)))%nat
  | (Returns false, _) => True
  | (Raises _, _) => False
  | (OutOfFuel, _) => False
  end.
Proof.
  rewrite handle_turn_framed.
  unfold try_except, try_except_else, bind, Handler.on_request, zoom.
  run_read_frame Hf.
  destruct Hf as (_ & _ & ops & _ & _ & header & _ & _ & _ & Hp).
  destruct (decode data) as [e|text]; cbn; [exact I|].
  case_str_eqb Heq; cbn; [|exact I].
  run_sendall Hs1. run_sendall Hs2.
  destruct Hs1 as (_ & Hrx1 & _). destruct Hs2 as (_ & Hrx2 & _).
  rewrite Hrx2, Hrx1. lia.
Qed.
Lemma handle_loop_total (fuel : nat) (h : Handler.t) :
  (rx_pending (sk_rx (Handler.request h)) < fuel)%nat ->
  exists h', Handler.handle_loop fuel h = (Returns tt, h').
Proof.
  revert h; induction fuel as [|fuel IH]; intros h Hfuel; [lia|].
  cbn [Handler.handle_loop]. unfold bind.
  pose proof (handle_turn_inv h) as Ht.
  destruct (Handler.handle_turn h) as [[[|]|e|] h1]; try contradiction.
  - apply IH. lia.
  - now exists h1.
Qed.

(** [handle] always comes to an end, by [break]: the handler returns. *)
Lemma handle_total (h : Handler.t) :
  exists h', Handler.handle h = (Returns tt, h').
Proof.
  unfold Handler.handle, bind, Handler.print.
  apply handle_loop_total. simpl. lia.
Qed.

(** The reply of the server to a ["Ping"] frame: two [sendall] calls. *)
Lemma handle_turn_reply (h h1 : Handler.t) (data : bytes) :
  Handler.on_request read_frame h = (Returns data, h1) ->
  decode data = inr (lit "Ping") ->
  writable 2 (Handler.request h1) = true ->
  exists h2,
    Handler.handle_turn h = (Returns true, h2)
    /\ sk_trace (Handler.request h2)
       = sk_trace (Handler.request h1)
         ++ [OpSendall [x04; x00; x00; x00] None; OpSendall b_Pong None]
    /\ same_conn (Handler.request h1) (Handler.request h2)
    /\ sk_rx (Handler.request h2) = sk_rx (Handler.request h1)
    /\ Handler.stdout h2 = Handler.stdout h1.
Proof.
  intros Hread Hdec Hw.
  destruct (sendall_writable [x04; x00; x00; x00] 1 _ Hw)
    as (s2 & Hs2 & Hc2 & Hrx2 & Htr2 & Hw2).
  destruct (sendall_writable b_Pong 0 _ Hw2)
    as (s3 & Hs3 & Hc3 & Hrx3 & Htr3 & _).
  exists (Handler.mk s3 (Handler.stdout h1)).
  split.
  { rewrite handle_turn_framed.
    unfold try_except, try_except_else, bind.
    rewrite Hread, Hdec. unfold Handler.on_request, zoom. cbn.
    rewrite Hs2. cbn. unfold b_Pong in Hs3. rewrite Hs3. reflexivity. }
  cbn [Handler.request Handler.stdout].
  split; [rewrite Htr3, Htr2, <- app_assoc; reflexivity|].
  split; [eapply same_conn_trans; eauto|].
  split; [congruence|reflexivity].
Qed.

(** C2 (protocol conformance of the server).  Let a turn of the server loop
    read a frame with payload [data].  If [data], decoded as UTF-8, is
    ["Ping"] (which holds of the bytes [b"Ping"] only) and the connection
    takes the writes, the turn makes two [sendall] calls and no other call:
    the header [04 00 00 00] and the payload [b"Pong"], one reply frame; it
    prints nothing and the loop goes to its next turn.  In every other case
    (another text, the empty payload, bytes that are not UTF-8) the turn
    makes no call on the socket after the read, so it writes nothing; it
    prints the exception, and the loop ends: the handler returns. *)
Theorem handle_turn_protocol (h h1 : Handler.t) (data : bytes) (fuel : nat) :
  Handler.on_request read_frame h = (Returns data, h1) ->
  (decode data = inr (lit "Ping") <-> data = b_Ping)
  /\ (decode data = inr (lit "Ping") ->
      writable 2 (Handler.request h1) = true ->
      exists h2,
        Handler.handle_turn h = (Returns true, h2)
        /\ sk_trace (Handler.request h2)
           = sk_trace (Handler.request h1)
             ++ [OpSendall [x04; x00; x00; x00] None; OpSendall b_Pong None]
        /\ same_conn (Handler.request h1) (Handler.request h2)
        /\ sk_rx (Handler.request h2) = sk_rx (Handler.request h1)
        /\ Handler.stdout h2 = Handler.stdout h1
        /\ Handler.handle_loop (S fuel) h = Handler.handle_loop fuel h2)
  /\ (decode data <> inr (lit "Ping") ->
      exists e,
        let h2 := Handler.mk (Handler.request h1)
                             (Handler.stdout h1 ++ [PrintExn e]) in
        Handler.handle_turn h = (Returns false, h2)
        /\ sent (sk_trace (Handler.request h2))
           = sent (sk_trace (Handler.request h))
        /\ Handler.handle_loop (S fuel) h = (Returns tt, h2)).
Proof.
  intros Hread. split; [apply decode_Ping|]. split.
  - intros Hdec Hw.
    destruct (handle_turn_reply h h1 data Hread Hdec Hw)
      as (h2 & Hturn & Htr & Hc & Hrx & Hout).
    exists h2. repeat split; try assumption; try apply Hc.
    cbn [Handler.handle_loop]. unfold bind. now rewrite Hturn.
  - intros Hdec.
    assert (Hturn : exists e,
               Handler.handle_turn h
               = (Returns false,
                  Handler.mk (Handler.request h1)
                             (Handler.stdout h1 ++ [PrintExn e]))).
    { rewrite handle_turn_framed.
      unfold try_except, try_except_else, bind.
      rewrite Hread. destruct (decode data) as [e|text] eqn:E.
      - exists e. reflexivity.
      - cbn [pure ret].
        destruct (str_eqb text (lit "Ping")) eqn:Eq.
        + apply str_eqb_eq in Eq. congruence.
        + exists (Exception "Unrecognized protocol."). reflexivity. }
    destruct Hturn as (e & Hturn). exists e. cbv zeta.
    split; [exact Hturn|]. split.
    + cbn [Handler.request].
      unfold Handler.on_request in Hread. rewrite zoom_run in Hread.
      pose proof (read_frame_inv (Handler.request h)) as Hf.
      destruct (read_frame (Handler.request h)) as [r s1].
      injection Hread as -> <-. cbn [Handler.request Handler.set_request].
      destruct Hf as (_ & _ & ops & -> & Hops & _).
      rewrite sent_app, (sent_recv_only _ Hops). apply app_nil_r.
    + cbn [Handler.handle_loop]. unfold bind. now rewrite Hturn.
Qed.

(** A ["Ping"] frame in two pieces is answered; a ["Pingx"] frame ends the
    loop with nothing written. *)
Lemma handle_turn_protocol_witness :
  let h := Handler.mk (mkSock 0 false true None
                         [RxData [x04; x00]; RxData [x00; x00; x50; x69];
                          RxData [x6e; x67]] [] []) [] in
  let h1 := snd (Handler.on_request read_frame h) in
  let hx := Handler.mk (mkSock 0 false true None
                          [RxData [x05; x00; x00; x00; x50; x69; x6e; x67;
                                   x78]] [] []) [] in
  let hx1 := snd (Handler.on_request read_frame hx) in
  (Handler.on_request read_frame h = (Returns b_Ping, h1)
   /\ decode b_Ping = inr (lit "Ping")
   /\ writable 2 (Handler.request h1) = true
   /\ exists h2,
       Handler.handle_turn h = (Returns true, h2)
       /\ sk_trace (Handler.request h2)
          = sk_trace (Handler.request h1)
            ++ [OpSendall [x04; x00; x00; x00] None; OpSendall b_Pong None])
  /\ (Handler.on_request read_frame hx
      = (Returns [x50; x69; x6e; x67; x78], hx1)
      /\ decode [x50; x69; x6e; x67; x78] <> inr (lit "Ping")
      /\ exists e,
          Handler.handle_loop 1 hx
          = (Returns tt,
             Handler.mk (Handler.request hx1)
                        (Handler.stdout hx1 ++ [PrintExn e]))).
Proof.
  intros h h1 hx hx1. split.
  - assert (H1 : Handler.on_request read_frame h = (Returns b_Ping, h1))
      by reflexivity.
    assert (H2 : decode b_Ping = inr (lit "Ping")) by reflexivity.
    assert (H3 : writable 2 (Handler.request h1) = true) by reflexivity.
    repeat (split; [assumption|]).
    destruct (handle_turn_protocol h h1 b_Ping 0 H1) as (_ & Hping & _).
    destruct (Hping H2 H3) as (h2 & Hturn & Htr & _).
    exists h2. now split.
  - assert (H1 : Handler.on_request read_frame hx
                 = (Returns [x50; x69; x6e; x67; x78], hx1))
      by reflexivity.
    assert (H2 : decode [x50; x69; x6e; x67; x78] <> inr (lit "Ping"))
      by discriminate.
    repeat (split; [assumption|]).
    destruct (handle_turn_protocol hx hx1 _ 0 H1) as (_ & _ & Hother).
    destruct (Hother H2) as (e & _ & _ & Hloop).
    exists e. exact Hloop.
Defined.

(* ================================================================== *)
(** ** The client *)

Lemma io_only_app (ops1 ops2 : list io_op) :
  io_only ops1 -> io_only ops2 -> io_only (ops1 ++ ops2).
Proof. unfold io_only. rewrite forallb_app. now intros -> ->. Qed.

Lemma io_only_recv (ops : list io_op) :
  forallb is_recv ops = true -> io_only ops.
Proof.
  unfold io_only. induction ops as [|op ops IH]; simpl; [reflexivity|].
  intros H. apply andb_true_iff in H as [-> H]. rewrite orb_true_r. auto.
Qed.

Lemma io_only_no_close (ops : list io_op) :
  io_only ops -> existsb is_close ops = false.
Proof.
  unfold io_only. induction ops as [|[] ops IH]; simpl; try discriminate;
    auto.
Qed.

(** The [try] block of [ping_pong], with its three reading lines seen as
    [read_frame] on [self.socket]. *)
Lemma ping_pong_try_framed (msg : str) (l : TcpSocketLocust.t) :
  TcpSocketLocust.ping_pong_try msg l
  = (hdr <- pure (to_bytes (len msg) 4) ;;
     TcpSocketLocust.on_socket (Socket.sendall hdr) ;;
     payload <- pure (encode msg) ;;
     TcpSocketLocust.on_socket (Socket.sendall payload) ;;
     data <- TcpSocketLocust.on_socket read_frame ;;
     text <- pure (decode data) ;;
     if negb (str_eqb text (lit "Pong")) then
       raise (Exception "Unrecognized protocol.")
     else ret data) l.
Proof.
  unfold TcpSocketLocust.ping_pong_try, TcpSocketLocust.read_bytes, bind,
    TcpSocketLocust.on_socket, zoom, read_frame, bind, ret.
  destruct (pure (to_bytes (len msg) 4) l) as [[hdr|e|] l1];
    try reflexivity.
  destruct (Socket.sendall hdr (TcpSocketLocust.socket l1))
    as [[[]|e|] s2]; try reflexivity.
  destruct (pure (encode msg) (TcpSocketLocust.set_socket s2 l1))
    as [[payload|e|] l3]; try reflexivity.
  destruct (Socket.sendall payload (TcpSocketLocust.socket l3))
    as [[[]|e|] s4]; try reflexivity.
  destruct (read_bytes 4
              (TcpSocketLocust.socket (TcpSocketLocust.set_socket s4 l3)))
    as [[header|e|] s5]; cbn; try reflexivity.
  destruct (read_bytes (from_bytes header) s5) as [[data|e|] s6];
    reflexivity.
Qed.

(** The [try] block of [ping_pong] changes the socket and nothing else; it
    makes [sendall] and [recv] calls only; when it returns, the two writes
    went through and the bytes read are the frame of [b"Pong"]. *)
Lemma ping_pong_try_inv (l : TcpSocketLocust.t) :
  exists r s',
    TcpSocketLocust.ping_pong_try (lit "Ping") l
    = (r, TcpSocketLocust.set_socket s' l)
    /\ same_conn (TcpSocketLocust.socket l) s'
    /\ exists ops,
        sk_trace s' = sk_trace (TcpSocketLocust.socket l) ++ ops
        /\ io_only ops
        /\ match r with
           | Returns data =>
             data = b_Pong
             /\ sent ops = [[x04; x00; x00; x00]; b_Ping]
             /\ received ops = [x04; x00; x00; x00] ++ b_Pong
             /\ sk_closed (TcpSocketLocust.socket l) = false
           | Raises _ => True
           | OutOfFuel => False
           end.
Proof.
  rewrite ping_pong_try_framed.
  unfold bind, TcpSocketLocust.on_socket, zoom.
  cbn.
  run_sendall Hs1.
  2:{ destruct Hs1 as (Hc & _ & Htr & _). do 2 eexists.
      split; [reflexivity|]. split; [exact Hc|]. eexists.
      split; [exact Htr|]. split; reflexivity. }
  destruct Hs1 as (Hc1 & _ & Htr1 & Hopen & _).
  run_sendall Hs2.
  2:{ destruct Hs2 as (Hc2 & _ & Htr2 & _). do 2 eexists.
      split; [reflexivity|]. split; [eapply same_conn_trans; eauto|].
      eexists. split; [rewrite Htr2, Htr1, <- app_assoc; reflexivity|].
      split; reflexivity. }
  destruct Hs2 as (Hc2 & _ & Htr2 & _).
  run_read_frame Hf.
  2:{ destruct Hf as (Hc3 & _ & ops & Htr3 & Hops & _). do 2 eexists.
      split; [reflexivity|].
      split; [eapply same_conn_trans; [|exact Hc3];
              eapply same_conn_trans; eauto|].
      eexists. split; [rewrite Htr3, Htr2, Htr1, <- !app_assoc; reflexivity|].
      split; [|exact I].
      apply (io_only_app [_; _]); [reflexivity|now apply io_only_recv]. }
  destruct Hf as (Hc3 & _ & ops & Htr3 & Hops & header & Hrecv & Hlen & Hval
                  & _).
  assert (Hconn : same_conn (TcpSocketLocust.socket l) sk1)
    by (eapply same_conn_trans; [|exact Hc3]; eapply same_conn_trans; eauto).
  assert (Htr : sk_trace sk1
                = sk_trace (TcpSocketLocust.socket l)
                  ++ [OpSendall [x04; x00; x00; x00] None;
                      OpSendall b_Ping None] ++ ops)
    by (rewrite Htr3, Htr2, Htr1, <- !app_assoc; reflexivity).
  assert (Hio : io_only ([OpSendall [x04; x00; x00; x00] None;
                          OpSendall b_Ping None] ++ ops))
    by (apply (io_only_app [_; _]); [reflexivity|now apply io_only_recv]).
  destruct (decode data) as [e|text] eqn:Hdec; cbn.
  { do 2 eexists. split; [reflexivity|]. split; [exact Hconn|].
    eexists. split; [exact Htr|]. split; [exact Hio|exact I]. }
  case_str_eqb Heq; cbn.
  - apply str_eqb_eq in Heq. subst text.
    apply (proj1 (decode_Pong data)) in Hdec. subst data.
    do 2 eexists. split; [reflexivity|]. split; [exact Hconn|].
    eexists. split; [exact Htr|]. split; [exact Hio|].
    split; [reflexivity|]. split.
    + cbn [app sent]. now rewrite (sent_recv_only _ Hops).
    + split; [|exact Hopen]. cbn [app received]. rewrite Hrecv. f_equal.
      rewrite <- (le_digits_from_bytes header), Hval.
      replace (List.length header) with 4%nat by (unfold len in Hlen; lia).
      reflexivity.
  - do 2 eexists. split; [reflexivity|]. split; [exact Hconn|].
    eexists. split; [exact Htr|]. split; [exact Hio|exact I].
Qed.

(** Everything [ping_pong] does.  It fires one event and reads the clock
    twice.  When it returns, the socket is open as before and the trace is
    longer by the two writes and the reads of the reply; when it raises, the
    socket has been closed, by the last call of the trace. *)
Lemma ping_pong_inv (l : TcpSocketLocust.t) :
  exists r s' ev ops,
    TcpSocketLocust.ping_pong l
    = (r, TcpSocketLocust.mk s' (TcpSocketLocust.host l)
            (TcpSocketLocust.port l) (TcpSocketLocust.fired l ++ [ev])
            (TcpSocketLocust.clock l) (S (S (TcpSocketLocust.ticks l))))
    /\ sk_id s' = sk_id (TcpSocketLocust.socket l)
    /\ sk_connected s' = sk_connected (TcpSocketLocust.socket l)
    /\ sk_net s' = sk_net (TcpSocketLocust.socket l)
    /\ io_only ops
    /\ match r with
       | Returns _ =>
         ev = request_success "tcp" "ping-pong" (elapsed l) 4
         /\ sk_trace s' = sk_trace (TcpSocketLocust.socket l) ++ ops
         /\ sk_closed s' = false
         /\ sk_closed (TcpSocketLocust.socket l) = false
         /\ sent ops = [[x04; x00; x00; x00]; b_Ping]
         /\ received ops = [x04; x00; x00; x00] ++ b_Pong
       | Raises e =>
         ev = request_failure "tcp" "ping-pong" (elapsed l) e
         /\ sk_trace s'
            = sk_trace (TcpSocketLocust.socket l) ++ ops ++ [OpClose]
         /\ sk_closed s' = true
       | OutOfFuel => False
       end.
Proof.
  unfold TcpSocketLocust.ping_pong. cbv zeta.
  unfold bind at 1. unfold TcpSocketLocust.time_time at 1.
  unfold try_except_else.
  match goal with
  | |- context [TcpSocketLocust.ping_pong_try _ ?l0] =>
    destruct (ping_pong_try_inv l0)
      as (r & s1 & -> & (Hid & Hcl & Hcn & Hnet) & ops & Htr & Hio & Hr)
  end.
  cbn in Hid, Hcl, Hcn, Hnet, Htr, Hr.
  destruct r as [data|e|]; [|cbn|contradiction].
  - destruct Hr as (-> & Hsent & Hrecv & Hopen).
    exists (Returns tt), s1. do 2 eexists. split; [reflexivity|].
    repeat split; try eassumption. congruence.
  - exists (Raises e). do 3 eexists. split; [reflexivity|]. cbn.
    repeat split; try eassumption. now rewrite Htr, app_assoc.
Qed.

(** Everything [connect] does: one [connect] call on the socket, two
    readings of the clock, one event. *)
Lemma connect_inv (host : string) (port : N) (l : TcpSocketLocust.t) :
  exists r s' ev,
    TcpSocketLocust.connect host port l
    = (r, TcpSocketLocust.mk s' (TcpSocketLocust.host l)
            (TcpSocketLocust.port l) (TcpSocketLocust.fired l ++ [ev])
            (TcpSocketLocust.clock l) (S (S (TcpSocketLocust.ticks l))))
    /\ sk_id s' = sk_id (TcpSocketLocust.socket l)
    /\ sk_closed s' = sk_closed (TcpSocketLocust.socket l)
    /\ match r with
       | Returns ok =>
         ok = true
         /\ ev = request_success "tcp" "connect" (elapsed l) 0
         /\ sk_trace s'
            = sk_trace (TcpSocketLocust.socket l)
              ++ [OpConnect host port None]
         /\ sk_connected s' = true
       | Raises e =>
         ev = request_failure "tcp" "connect" (elapsed l) e
         /\ sk_trace s'
            = sk_trace (TcpSocketLocust.socket l)
              ++ [OpConnect host port (Some e)]
         /\ sk_connected s' = sk_connected (TcpSocketLocust.socket l)
       | OutOfFuel => False
       end.
Proof.
  unfold TcpSocketLocust.connect, bind, try_except_else,
    TcpSocketLocust.time_time, TcpSocketLocust.on_socket, zoom,
    Socket.connect.
  cbn.
  destruct (sk_closed (TcpSocketLocust.socket l)) eqn:Hc; cbn.
  { exists (Raises EBADF). do 2 eexists. split; [reflexivity|].
    cbn. repeat split; assumption. }
  destruct (sk_connected (TcpSocketLocust.socket l)) eqn:Hn; cbn.
  { exists (Raises EISCONN). do 2 eexists. split; [reflexivity|].
    cbn. repeat split; assumption. }
  destruct (sk_net (TcpSocketLocust.socket l)) as [e|] eqn:Hnet; cbn.
  - exists (Raises e). do 2 eexists. split; [reflexivity|].
    cbn. repeat split; assumption.
  - exists (Returns true). do 2 eexists. split; [reflexivity|].
    cbn. repeat split; assumption.
Qed.

(** ** The task set *)

(** Once [running] is [False], the task does nothing at all. *)
Lemma task_stopped (u : UserBehavior.t) :
  UserBehavior.running u = false ->
  UserBehavior.ping_pong u = (Returns tt, u).
Proof. unfold UserBehavior.ping_pong. now intros ->. Qed.

Lemma tasks_stopped (n : nat) (u : UserBehavior.t) :
  UserBehavior.running u = false ->
  UserBehavior.tasks n u = (Returns tt, u).
Proof.
  intros H. induction n as [|n IH]; [reflexivity|].
  cbn [UserBehavior.tasks]. unfold bind. now rewrite (task_stopped u H).
Qed.

(** What the task does with the outcome of the cycle. *)
Lemma task_running (u : UserBehavior.t) :
  UserBehavior.running u = true ->
  UserBehavior.ping_pong u
  = match TcpSocketLocust.ping_pong (UserBehavior.locust u) with
    | (Returns _, l') => (Returns tt, UserBehavior.mk l' true)
    | (Raises _, l') => (Returns tt, UserBehavior.mk l' false)
    | (OutOfFuel, l') => (OutOfFuel, UserBehavior.mk l' true)
    end.
Proof.
  unfold UserBehavior.ping_pong. intros Hr. rewrite Hr.
  unfold try_except, try_except_else, UserBehavior.on_locust, zoom.
  destruct (TcpSocketLocust.ping_pong (UserBehavior.locust u))
    as [[[]|e|] l']; unfold UserBehavior.set_locust; rewrite ?Hr;
    reflexivity.
Qed.

(** What [on_start] does with the outcome of [connect]. *)
Lemma on_start_run (u : UserBehavior.t) :
  UserBehavior.on_start u
  = match TcpSocketLocust.connect
            (TcpSocketLocust.host (UserBehavior.locust u))
            (TcpSocketLocust.port (UserBehavior.locust u))
            (UserBehavior.locust u) with
    | (Returns _, l') => (Returns tt, UserBehavior.mk l' (UserBehavior.running u))
    | (Raises _, l') => (Returns tt, UserBehavior.mk l' false)
    | (OutOfFuel, l') =>
      (OutOfFuel, UserBehavior.mk l' (UserBehavior.running u))
    end.
Proof.
  unfold UserBehavior.on_start, try_except, try_except_else, bind,
    UserBehavior.on_locust, zoom.
  destruct (TcpSocketLocust.connect _ _ (UserBehavior.locust u))
    as [[ok|e|] l']; reflexivity.
Qed.

(** [ping_pong], by the outcome of its [try] block. *)
Lemma ping_pong_run (l : TcpSocketLocust.t) :
  TcpSocketLocust.ping_pong l
  = match TcpSocketLocust.ping_pong_try (lit "Ping")
            (snd (TcpSocketLocust.time_time l)) with
    | (Returns data, l1) =>
      (Returns tt,
       TcpSocketLocust.mk (TcpSocketLocust.socket l1)
         (TcpSocketLocust.host l1) (TcpSocketLocust.port l1)
         (TcpSocketLocust.fired l1
          ++ [request_success "tcp" "ping-pong"
                (TcpSocketLocust.clock l1 (TcpSocketLocust.ticks l1)
                 - TcpSocketLocust.clock l (TcpSocketLocust.ticks l))
                (len data)])
         (TcpSocketLocust.clock l1) (S (TcpSocketLocust.ticks l1)))
    | (Raises e, l1) =>
      (Raises e,
       TcpSocketLocust.mk
         (log OpClose (set_closed true (TcpSocketLocust.socket l1)))
         (TcpSocketLocust.host l1) (TcpSocketLocust.port l1)
         (TcpSocketLocust.fired l1
          ++ [request_failure "tcp" "ping-pong"
                (TcpSocketLocust.clock l1 (TcpSocketLocust.ticks l1)
                 - TcpSocketLocust.clock l (TcpSocketLocust.ticks l))
                e])
         (TcpSocketLocust.clock l1) (S (TcpSocketLocust.ticks l1)))
    | (OutOfFuel, l1) => (OutOfFuel, l1)
    end.
Proof.
  unfold TcpSocketLocust.ping_pong. cbv zeta.
  unfold bind at 1. unfold TcpSocketLocust.time_time at 1.
  unfold try_except_else. cbn [snd TcpSocketLocust.time_time].
  destruct (TcpSocketLocust.ping_pong_try (lit "Ping") _) as [[data|e|] l1];
    reflexivity.
Qed.

(** On a connection that takes the writes, the [try] block of [ping_pong]
    starts with its two [sendall] calls; every later call is a [recv]. *)
Lemma ping_pong_try_writes (l : TcpSocketLocust.t) :
  writable 2 (TcpSocketLocust.socket l) = true ->
  exists ops,
    sk_trace (TcpSocketLocust.socket
                (snd (TcpSocketLocust.ping_pong_try (lit "Ping") l)))
    = sk_trace (TcpSocketLocust.socket l)
      ++ [OpSendall [x04; x00; x00; x00] None; OpSendall b_Ping None] ++ ops
    /\ forallb is_recv ops = true.
Proof.
  intros Hw.
  destruct (sendall_writable [x04; x00; x00; x00] 1 _ Hw)
    as (s2 & Hs2 & _ & _ & Htr2 & Hw2).
  destruct (sendall_writable b_Ping 0 _ Hw2)
    as (s3 & Hs3 & _ & _ & Htr3 & _).
  rewrite ping_pong_try_framed.
  unfold bind, TcpSocketLocust.on_socket, zoom.
  cbn. rewrite Hs2. cbn. unfold b_Ping in Hs3. rewrite Hs3. cbn.
  pose proof (read_frame_inv s3) as Hf.
  destruct (read_frame s3) as [[data|e|] s4];
    destruct Hf as (_ & _ & ops & Htr4 & Hops & Hf); cbn.
  - exists ops. split; [|exact Hops].
    destruct (decode data) as [e|text]; cbn;
      [|case_str_eqb Heq; cbn];
      rewrite Htr4, Htr3, Htr2, <- !app_assoc; reflexivity.
  - exists ops. split; [|exact Hops].
    rewrite Htr4, Htr3, Htr2, <- !app_assoc; reflexivity.
  - contradiction.
Qed.

(** ** A cycle that is answered *)

Lemma read_frame_chunks (P hdr extra : bytes) (chunks : list bytes)
    (rest : list rx_event) (s : sock) :
  to_bytes (len P) 4 = inr hdr ->
  delivers chunks rest s -> nonempty chunks ->
  List.concat chunks = hdr ++ P ++ extra ->
  exists s' chunks',
    read_frame s = (Returns P, s')
    /\ delivers chunks' rest s' /\ nonempty chunks'
    /\ List.concat chunks' = extra.
Proof.
  intros Hhdr Hd Hne Hcat.
  apply from_bytes_to_bytes in Hhdr as [Hval Hlen].
  destruct (read_bytes_chunks chunks hdr (P ++ extra) rest s Hd Hne Hcat)
    as (s1 & chunks1 & Hrun1 & Hd1 & Hne1 & Hcat1).
  destruct (read_bytes_chunks chunks1 P extra rest s1 Hd1 Hne1 Hcat1)
    as (s2 & chunks2 & Hrun2 & Hd2 & Hne2 & Hcat2).
  exists s2, chunks2. unfold read_frame, bind.
  replace 4 with (len hdr) by (unfold len; rewrite Hlen; reflexivity).
  rewrite Hrun1, Hval, Hrun2. auto.
Qed.

Lemma writable_same (n : nat) (s s' : sock) :
  same_conn s s' -> sk_tx s' = sk_tx s -> writable n s' = writable n s.
Proof.
  intros (_ & Hc & Hn & _) Htx. unfold writable. now rewrite Hc, Hn, Htx.
Qed.

Lemma writable_le (n m : nat) (s : sock) :
  (m <= n)%nat -> writable n s = true -> writable m s = true.
Proof.
  unfold writable. intros Hle H.
  apply andb_true_iff in H as [-> H]. cbn [andb].
  rewrite forallb_forall in *. intros r Hr. apply H.
  rewrite <- (firstn_skipn m (firstn n (sk_tx s))).
  rewrite firstn_firstn, Nat.min_l by exact Hle.
  apply in_or_app. now left.
Qed.

(** A cycle whose reply arrives, in any pieces. *)
Lemma ping_pong_answered (m : nat) (l : TcpSocketLocust.t)
    (chunks : list bytes) (extra : bytes) :
  delivers chunks [] (TcpSocketLocust.socket l) -> nonempty chunks ->
  List.concat chunks = frame_Pong ++ extra ->
  writable (2 + m) (TcpSocketLocust.socket l) = true ->
  exists l' chunks',
    TcpSocketLocust.ping_pong l = (Returns tt, l')
    /\ delivers chunks' [] (TcpSocketLocust.socket l')
    /\ nonempty chunks' /\ List.concat chunks' = extra
    /\ writable m (TcpSocketLocust.socket l') = true
    /\ TcpSocketLocust.fired l'
       = TcpSocketLocust.fired l
         ++ [request_success "tcp" "ping-pong" (elapsed l) 4]
    /\ sent (sk_trace (TcpSocketLocust.socket l'))
       = sent (sk_trace (TcpSocketLocust.socket l)) ++ [hdr4; b_Ping].
Proof.
  intros Hd Hne Hcat Hw.
  destruct (sendall_writable hdr4 (S m) _ Hw)
    as (s2 & Hs2 & Hc2 & Hrx2 & Htr2 & Hw2).
  destruct (sendall_writable b_Ping m _ Hw2)
    as (s3 & Hs3 & Hc3 & Hrx3 & Htr3 & Hw3).
  assert (Hd3 : delivers chunks [] s3).
  { destruct Hd as (Hcl & Hcn & Hrx).
    destruct Hc2 as (_ & Hcl2 & Hcn2 & _).
    destruct Hc3 as (_ & Hcl3 & Hcn3 & _).
    repeat split; congruence. }
  unfold frame_Pong in Hcat. rewrite <- app_assoc in Hcat.
  destruct (read_frame_chunks b_Pong hdr4 extra chunks [] s3 eq_refl Hd3 Hne
              Hcat)
    as (s4 & chunks' & Hrun & Hd4 & Hne4 & Hcat4).
  pose proof (read_frame_inv s3) as Hinv. rewrite Hrun in Hinv.
  destruct Hinv as (Hc4 & Htx4 & ops & Htr4 & Hops & _).
  rewrite ping_pong_run, ping_pong_try_framed.
  unfold bind, TcpSocketLocust.on_socket, zoom. cbn.
  unfold hdr4 in Hs2. rewrite Hs2. cbn.
  unfold b_Ping in Hs3. rewrite Hs3. cbn.
  rewrite Hrun. cbn.
  eexists. exists chunks'. split; [reflexivity|]. cbn.
  split; [exact Hd4|]. split; [exact Hne4|]. split; [exact Hcat4|].
  split; [rewrite (writable_same _ _ _ Hc4 Htx4); exact Hw3|].
  split; [reflexivity|].
  rewrite Htr4, Htr3, Htr2, !sent_app, (sent_recv_only _ Hops).
  cbn [sent app]. rewrite <- !app_assoc, app_nil_r. reflexivity.
Qed.

(* ================================================================== *)
(** ** Sample runs *)

Example server_Ping_Pong :
  sent (sk_trace (Handler.request
                    (snd (Handler.handle
                            (server_on [RxData [x04; x00; x00; x00];
                                        RxData b_Ping])))))
  = [[x04; x00; x00; x00]; b_Pong].
Proof. reflexivity. Qed.

Example server_Pingx :
  Handler.handle
    (server_on [RxData [x05; x00; x00; x00; x50; x69; x6e; x67; x78]])
  = (Returns tt,
     Handler.mk
       (mkSock 0 false true None [] []
               [OpRecv 4 (inr [x05; x00; x00; x00]);
                OpRecv 5 (inr [x50; x69; x6e; x67; x78])])
       [PrintStr "Handling a connection.";
        PrintExn (Exception "Unrecognized protocol.")]).
Proof. reflexivity. Qed.

Example server_empty_payload :
  Handler.handle (server_on [RxData [x00; x00; x00; x00]])
  = (Returns tt,
     Handler.mk
       (mkSock 0 false true None [] []
               [OpRecv 4 (inr [x00; x00; x00; x00])])
       [PrintStr "Handling a connection.";
        PrintExn (Exception "Unrecognized protocol.")]).
Proof. reflexivity. Qed.

Example server_not_utf8 :
  Handler.handle (server_on [RxData [x01; x00; x00; x00; xff]])
  = (Returns tt,
     Handler.mk
       (mkSock 0 false true None [] []
               [OpRecv 4 (inr [x01; x00; x00; x00]); OpRecv 1 (inr [xff])])
       [PrintStr "Handling a connection."; PrintExn UnicodeDecodeError]).
Proof. reflexivity. Qed.

(** The bytes that a client cycle writes, delivered to the server one at a
    time, and the bytes that the server writes back, delivered to the client
    in the same way: the cycle succeeds. *)
Example wire_round_trip :
  let request :=
    List.concat (sent (sk_trace (TcpSocketLocust.socket
                                   (snd (TcpSocketLocust.ping_pong
                                           pong_client))))) in
  let reply :=
    List.concat (sent (sk_trace (Handler.request
                                   (snd (Handler.handle
                                           (server_on
                                              (map (fun b => RxData [b])
                                                   request))))))) in
  request = [x04; x00; x00; x00] ++ b_Ping
  /\ reply = [x04; x00; x00; x00] ++ b_Pong
  /\ fst (TcpSocketLocust.ping_pong
            (client_on (map (fun b => RxData [b]) reply)))
     = Returns tt.
Proof. repeat split. Qed.

Example client_Pong :
  TcpSocketLocust.fired (snd (TcpSocketLocust.ping_pong pong_client))
  = [request_success "tcp" "ping-pong" 7 4].
Proof. reflexivity. Qed.

Example client_silent :
  let r := TcpSocketLocust.ping_pong silent_client in
  fst r = Raises (Exception "Error reading bytes.")
  /\ TcpSocketLocust.fired (snd r)
     = [request_failure "tcp" "ping-pong" 7
          (Exception "Error reading bytes.")]
  /\ sk_closed (TcpSocketLocust.socket (snd r)) = true.
Proof. repeat split. Qed.

(** The three ways for a cycle to fail: a write that fails, a read that
    fails, a reply that is not ["Pong"]. *)
Example client_write_error :
  let l := TestTcpLocust.init (mkSock 1 false true None [] [Some EPIPE] [])
                              sample_clock in
  TcpSocketLocust.ping_pong l
  = (Raises EPIPE,
     TcpSocketLocust.mk
       (mkSock 1 true true None [] []
               [OpSendall [x04; x00; x00; x00] (Some EPIPE); OpClose])
       TestTcpLocust.host TestTcpLocust.port
       [request_failure "tcp" "ping-pong" 7 EPIPE] sample_clock 2).
Proof. reflexivity. Qed.

Example client_read_error :
  let reset := OSError "[Errno 104] Connection reset by peer" in
  let r := TcpSocketLocust.ping_pong
             (client_on [RxData [x04; x00]; RxError reset]) in
  fst r = Raises reset
  /\ TcpSocketLocust.fired (snd r)
     = [request_failure "tcp" "ping-pong" 7 reset]
  /\ sk_closed (TcpSocketLocust.socket (snd r)) = true.
Proof. repeat split. Qed.

Example client_wrong_reply :
  let r := TcpSocketLocust.ping_pong
             (client_on [RxData ([x04; x00; x00; x00] ++ b_Ping)]) in
  fst r = Raises (Exception "Unrecognized protocol.")
  /\ TcpSocketLocust.fired (snd r)
     = [request_failure "tcp" "ping-pong" 7
          (Exception "Unrecognized protocol.")]
  /\ sk_closed (TcpSocketLocust.socket (snd r)) = true.
Proof. repeat split. Qed.

Example client_refused :
  UserBehavior.on_start (UserBehavior.init refused_client)
  = (Returns tt,
     UserBehavior.mk
       (TcpSocketLocust.mk
          (mkSock 1 false false (Some refused) [] []
                  [OpConnect "127.0.0.1" 50000 (Some refused)])
          TestTcpLocust.host TestTcpLocust.port
          [request_failure "tcp" "connect" 7 refused] sample_clock 2)
       false).
Proof. reflexivity. Qed.

(* ================================================================== *)
(** ** The client: outcome of a cycle *)

(** What the calls of a cycle on the socket decide.  The cycle is the two
    writes, then the reading of a frame, then the test of the reply; the
    first of them to fail decides the exception. *)
Lemma ping_pong_by_cause (l : TcpSocketLocust.t) :
  match Socket.sendall hdr4 (TcpSocketLocust.socket l) with
  | (Raises e, s1) => cycle_fails l e s1
  | (Returns _, s1) =>
    match Socket.sendall b_Ping s1 with
    | (Raises e, s2) => cycle_fails l e s2
    | (Returns _, s2) =>
      match read_frame s2 with
      | (Raises e, s3) => cycle_fails l e s3
      | (Returns data, s3) =>
        match decode data with
        | inl e => cycle_fails l e s3
        | inr text =>
          if str_eqb text (lit "Pong")
          then data = b_Pong /\ cycle_succeeds l s3
          else cycle_fails l (Exception "Unrecognized protocol.") s3
        end
      | (OutOfFuel, _) => False
      end
    | (OutOfFuel, _) => False
    end
  | (OutOfFuel, _) => False
  end.
Proof.
  unfold cycle_fails, cycle_succeeds.
  rewrite ping_pong_run, ping_pong_try_framed.
  unfold bind, TcpSocketLocust.on_socket, zoom, elapsed, hdr4, b_Ping.
  cbn.
  run_sendall Hs1; [|reflexivity].
  run_sendall Hs2; [|reflexivity].
  run_read_frame Hf; [|reflexivity].
  destruct (decode data) as [e|text] eqn:Hdec; cbn; [reflexivity|].
  case_str_eqb Heq; cbn; [|reflexivity].
  apply str_eqb_eq in Heq. subst text.
  apply (proj1 (decode_Pong data)) in Hdec. subst data.
  split; reflexivity.
Qed.

(** C4 (outcome of a ping-pong cycle).  Every call of [ping_pong] comes to
    an end, and fires exactly one event, named ["ping-pong"].

    First, by the outcome.  When the call returns, the event is a success
    with [response_length] 4, the length of [b"Pong"]; both writes went
    through, the bytes read are the frame of [b"Pong"], and no [close] was
    called: the socket is open.  When it raises [e], the event is a failure
    carrying [e], and the socket has been closed, by one [close] call, the
    last of the trace.

    Second, by the cause.  The cycle writes the header, writes [b"Ping"],
    reads a frame and tests the reply.  If the first [sendall] raises [e],
    or the second, or the reading of the frame (an error of [recv], or the
    end of the stream), or the decoding of the payload, the cycle fails with
    that same [e]; if the payload decodes to another text than ["Pong"], it
    fails with [Exception("Unrecognized protocol.")].  To fail with [e] is:
    to raise [e], after firing one failure event that carries [e] and
    closing the socket as the failed call left it.  The cycle succeeds in
    the one remaining case, both writes done and the payload read decoding
    to ["Pong"]; the payload is then [b"Pong"], and the socket is as the
    reading of the frame left it.

    Third, by what the peer does.  On a connection that takes two writes
    and delivers the frame of [b"Pong"], cut into non-empty chunks in any
    way, the cycle succeeds, leaves what follows the frame unread, and has
    written the header and [b"Ping"]. *)
Theorem ping_pong_outcome (l : TcpSocketLocust.t) :
  match TcpSocketLocust.ping_pong l with
  | (Returns _, l') =>
    TcpSocketLocust.fired l'
    = TcpSocketLocust.fired l
      ++ [request_success "tcp" "ping-pong" (elapsed l) 4]
    /\ sk_closed (TcpSocketLocust.socket l') = false
    /\ exists ops,
        sk_trace (TcpSocketLocust.socket l')
        = sk_trace (TcpSocketLocust.socket l) ++ ops
        /\ existsb is_close ops = false
        /\ sent ops = [[x04; x00; x00; x00]; b_Ping]
        /\ received ops = [x04; x00; x00; x00] ++ b_Pong
  | (Raises e, l') =>
    TcpSocketLocust.fired l'
    = TcpSocketLocust.fired l
      ++ [request_failure "tcp" "ping-pong" (elapsed l) e]
    /\ sk_closed (TcpSocketLocust.socket l') = true
    /\ exists ops,
        sk_trace (TcpSocketLocust.socket l')
        = sk_trace (TcpSocketLocust.socket l) ++ ops ++ [OpClose]
        /\ existsb is_close ops = false
  | (OutOfFuel, _) => False
  end
  /\ match Socket.sendall hdr4 (TcpSocketLocust.socket l) with
     | (Raises e, s1) => cycle_fails l e s1
     | (Returns _, s1) =>
       match Socket.sendall b_Ping s1 with
       | (Raises e, s2) => cycle_fails l e s2
       | (Returns _, s2) =>
         match read_frame s2 with
         | (Raises e, s3) => cycle_fails l e s3
         | (Returns data, s3) =>
           match decode data with
           | inl e => cycle_fails l e s3
           | inr text =>
             if str_eqb text (lit "Pong")
             then data = b_Pong /\ cycle_succeeds l s3
             else cycle_fails l (Exception "Unrecognized protocol.") s3
           end
         | (OutOfFuel, _) => False
         end
       | (OutOfFuel, _) => False
       end
     | (OutOfFuel, _) => False
     end
  /\ (forall (chunks : list bytes) (extra : bytes),
        delivers chunks [] (TcpSocketLocust.socket l) -> nonempty chunks ->
        List.concat chunks = frame_Pong ++ extra ->
        writable 2 (TcpSocketLocust.socket l) = true ->
        exists l' chunks',
          TcpSocketLocust.ping_pong l = (Returns tt, l')
          /\ delivers chunks' [] (TcpSocketLocust.socket l')
          /\ nonempty chunks' /\ List.concat chunks' = extra
          /\ TcpSocketLocust.fired l'
             = TcpSocketLocust.fired l
               ++ [request_success "tcp" "ping-pong" (elapsed l) 4]
          /\ sent (sk_trace (TcpSocketLocust.socket l'))
             = sent (sk_trace (TcpSocketLocust.socket l))
               ++ [hdr4; b_Ping]).
Proof.
  split; [|split; [apply ping_pong_by_cause|]].
  - destruct (ping_pong_inv l)
      as (r & s' & ev & ops & -> & _ & _ & _ & Hio & Hr).
    cbn [TcpSocketLocust.fired TcpSocketLocust.socket].
    destruct r as [[]|e|]; [| |exact Hr].
    + destruct Hr as (-> & Htr & Hcl & _ & Hsent & Hrecv).
      split; [reflexivity|]. split; [exact Hcl|]. exists ops.
      repeat split; auto using io_only_no_close.
    + destruct Hr as (-> & Htr & Hcl).
      split; [reflexivity|]. split; [exact Hcl|]. exists ops.
      split; auto using io_only_no_close.
  - intros chunks extra Hd Hne Hcat Hw.
    destruct (ping_pong_answered 0 l chunks extra Hd Hne Hcat Hw)
      as (l' & chunks' & Hrun & Hd' & Hne' & Hcat' & _ & Hf & Hsent).
    exists l', chunks'. auto 7.
Qed.

(** A reply in two pieces, followed by the first byte of another frame;
    and the three causes of failure: a write that fails, a connection that
    is reset while the reply is read, a reply that is not ["Pong"]. *)
Lemma ping_pong_outcome_witness :
  let chunks := [[x04; x00; x00]; [x00; x50; x6f; x6e; x67; x04]] in
  let l := client_on (map RxData chunks) in
  let reset := OSError "[Errno 104] Connection reset by peer" in
  (delivers chunks [] (TcpSocketLocust.socket l) /\ nonempty chunks
   /\ List.concat chunks = frame_Pong ++ [x04]
   /\ writable 2 (TcpSocketLocust.socket l) = true)
  /\ (exists l' chunks',
        TcpSocketLocust.ping_pong l = (Returns tt, l')
        /\ delivers chunks' [] (TcpSocketLocust.socket l')
        /\ nonempty chunks' /\ List.concat chunks' = [x04]
        /\ TcpSocketLocust.fired l'
           = TcpSocketLocust.fired l
             ++ [request_success "tcp" "ping-pong" (elapsed l) 4]
        /\ sent (sk_trace (TcpSocketLocust.socket l'))
           = sent (sk_trace (TcpSocketLocust.socket l)) ++ [hdr4; b_Ping])
  /\ fst (TcpSocketLocust.ping_pong
            (TestTcpLocust.init
               (mkSock 1 false true None [] [None; Some EPIPE] [])
               sample_clock))
     = Raises EPIPE
  /\ fst (TcpSocketLocust.ping_pong
            (client_on [RxData [x04; x00]; RxError reset]))
     = Raises reset
  /\ fst (TcpSocketLocust.ping_pong (client_on [RxData frame_Ping]))
     = Raises (Exception "Unrecognized protocol.").
Proof.
  intros chunks l reset.
  assert (H1 : delivers chunks [] (TcpSocketLocust.socket l))
    by (repeat split).
  assert (H2 : nonempty chunks) by (repeat constructor; discriminate).
  assert (H3 : List.concat chunks = frame_Pong ++ [x04]) by reflexivity.
  assert (H4 : writable 2 (TcpSocketLocust.socket l) = true) by reflexivity.
  split; [auto|].
  split; [exact (proj2 (proj2 (ping_pong_outcome l)) chunks [x04] H1 H2 H3
                   H4)|].
  split; [|split].
  - pose proof (proj1 (proj2 (ping_pong_outcome
                  (TestTcpLocust.init
                     (mkSock 1 false true None [] [None; Some EPIPE] [])
                     sample_clock)))) as H.
    lazy -[cycle_fails cycle_succeeds] in H. exact (f_equal fst H).
  - pose proof (proj1 (proj2 (ping_pong_outcome
                  (client_on [RxData [x04; x00]; RxError reset])))) as H.
    lazy -[cycle_fails cycle_succeeds] in H. exact (f_equal fst H).
  - pose proof (proj1 (proj2 (ping_pong_outcome
                  (client_on [RxData frame_Ping])))) as H.
    lazy -[cycle_fails cycle_succeeds] in H. exact (f_equal fst H).
Defined.

(** C10 (the connection is kept).  A cycle that succeeds leaves the client
    with the same socket object, open and connected as before, and with the
    same address; what it did on the socket is [sendall] and [recv] calls,
    and nothing else.  The socket is closed on the other path only: when the
    cycle raises, the same socket object has been closed, after the
    [sendall] and [recv] calls of the cycle. *)
Theorem ping_pong_keeps_connection (l : TcpSocketLocust.t) :
  match TcpSocketLocust.ping_pong l with
  | (Returns _, l') =>
    sk_id (TcpSocketLocust.socket l') = sk_id (TcpSocketLocust.socket l)
    /\ sk_closed (TcpSocketLocust.socket l) = false
    /\ sk_closed (TcpSocketLocust.socket l') = false
    /\ sk_connected (TcpSocketLocust.socket l')
       = sk_connected (TcpSocketLocust.socket l)
    /\ TcpSocketLocust.host l' = TcpSocketLocust.host l
    /\ TcpSocketLocust.port l' = TcpSocketLocust.port l
    /\ exists ops,
        sk_trace (TcpSocketLocust.socket l')
        = sk_trace (TcpSocketLocust.socket l) ++ ops
        /\ io_only ops
  | (Raises _, l') =>
    sk_id (TcpSocketLocust.socket l') = sk_id (TcpSocketLocust.socket l)
    /\ sk_closed (TcpSocketLocust.socket l') = true
    /\ exists ops,
        sk_trace (TcpSocketLocust.socket l')
        = sk_trace (TcpSocketLocust.socket l) ++ ops ++ [OpClose]
        /\ io_only ops
  | (OutOfFuel, _) => False
  end.
Proof.
  destruct (ping_pong_inv l)
    as (r & s' & ev & ops & -> & Hid & Hcn & _ & Hio & Hr).
  cbn [TcpSocketLocust.socket TcpSocketLocust.host TcpSocketLocust.port].
  destruct r as [[]|e|]; [| |exact Hr].
  - destruct Hr as (_ & Htr & Hcl & Hcl0 & _).
    repeat split; auto. now exists ops.
  - destruct Hr as (_ & Htr & Hcl).
    repeat split; auto. now exists ops.
Qed.

(* ================================================================== *)
(** ** The client: connecting, and stopping *)

(** What [sock.connect] does: it goes through on an open, unconnected
    socket that the server accepts, and on no other; it leaves one
    [connect] call in the trace and touches nothing else. *)
Lemma socket_connect_inv (host : string) (port : N) (s : sock) :
  match Socket.connect host port s with
  | (Returns _, s') =>
    sk_closed s = false /\ sk_connected s = false /\ sk_net s = None
    /\ s' = log (OpConnect host port None) (set_connected true s)
  | (Raises e, s') =>
    s' = log (OpConnect host port (Some e)) s
    /\ (sk_closed s = false -> sk_connected s = false ->
        sk_net s = Some e)
  | (OutOfFuel, _) => False
  end.
Proof.
  unfold Socket.connect.
  destruct (sk_closed s); [split; [reflexivity|discriminate]|].
  destruct (sk_connected s); [split; [reflexivity|discriminate]|].
  destruct (sk_net s) as [e|]; repeat split.
Qed.

(** C5 (outcome of a connect attempt).  [on_start] makes one connect
    attempt, to the address of the client; what [sock.connect] does decides
    everything.

    When [sock.connect] raises [e] (on a fresh socket: when the server's
    answer is the error [e]), [TcpSocketLocust.connect] raises that same
    [e], having fired exactly one event, a ["connect"] failure that carries
    [e]; the socket is as the failed call left it, with the call in its
    trace.  [on_start] catches [e] and sets [running] to [False], and from
    then on every invocation of the task returns at once, leaving the whole
    client as it is: no cycle is attempted.

    When [sock.connect] goes through (the socket was open and unconnected
    and the server accepts), [TcpSocketLocust.connect] returns [True],
    having fired exactly one event, a ["connect"] success with
    [response_length] 0; the socket is connected, with the call in its
    trace, and [on_start] leaves [running] as it was.

    The attempt always comes to an end. *)
Theorem connect_outcome (u : UserBehavior.t) :
  let l := UserBehavior.locust u in
  let host := TcpSocketLocust.host l in
  let port := TcpSocketLocust.port l in
  match Socket.connect host port (TcpSocketLocust.socket l) with
  | (Raises e, s') =>
    connect_fails host port l e s'
    /\ (sk_closed (TcpSocketLocust.socket l) = false ->
        sk_connected (TcpSocketLocust.socket l) = false ->
        sk_net (TcpSocketLocust.socket l) = Some e)
    /\ sk_trace s'
       = sk_trace (TcpSocketLocust.socket l)
         ++ [OpConnect host port (Some e)]
    /\ sk_connected s' = sk_connected (TcpSocketLocust.socket l)
    /\ (exists l',
          TcpSocketLocust.connect host port l = (Raises e, l')
          /\ TcpSocketLocust.fired l'
             = TcpSocketLocust.fired l
               ++ [request_failure "tcp" "connect" (elapsed l) e]
          /\ UserBehavior.on_start u
             = (Returns tt, UserBehavior.mk l' false)
          /\ forall n : nat,
              UserBehavior.tasks n (UserBehavior.mk l' false)
              = (Returns tt, UserBehavior.mk l' false))
  | (Returns _, s') =>
    connect_succeeds host port l s'
    /\ sk_closed (TcpSocketLocust.socket l) = false
    /\ sk_connected (TcpSocketLocust.socket l) = false
    /\ sk_net (TcpSocketLocust.socket l) = None
    /\ sk_trace s'
       = sk_trace (TcpSocketLocust.socket l) ++ [OpConnect host port None]
    /\ sk_connected s' = true
    /\ (exists l',
          TcpSocketLocust.connect host port l = (Returns true, l')
          /\ TcpSocketLocust.fired l'
             = TcpSocketLocust.fired l
               ++ [request_success "tcp" "connect" (elapsed l) 0]
          /\ UserBehavior.on_start u
             = (Returns tt, UserBehavior.mk l' (UserBehavior.running u)))
  | (OutOfFuel, _) => False
  end.
Proof.
  intros l host port.
  pose proof (socket_connect_inv host port (TcpSocketLocust.socket l)) as Hs.
  assert (Hrun : TcpSocketLocust.connect host port l
                 = match Socket.connect host port
                           (TcpSocketLocust.socket l) with
                   | (Returns _, s') =>
                     (Returns true,
                      TcpSocketLocust.mk s'
                        (TcpSocketLocust.host l) (TcpSocketLocust.port l)
                        (TcpSocketLocust.fired l
                         ++ [request_success "tcp" "connect" (elapsed l) 0])
                        (TcpSocketLocust.clock l)
                        (S (S (TcpSocketLocust.ticks l))))
                   | (Raises e, s') =>
                     (Raises e,
                      TcpSocketLocust.mk s'
                        (TcpSocketLocust.host l) (TcpSocketLocust.port l)
                        (TcpSocketLocust.fired l
                         ++ [request_failure "tcp" "connect" (elapsed l) e])
                        (TcpSocketLocust.clock l)
                        (S (S (TcpSocketLocust.ticks l))))
                   | (OutOfFuel, s') =>
                     (OutOfFuel,
                      TcpSocketLocust.mk s'
                        (TcpSocketLocust.host l) (TcpSocketLocust.port l)
                        (TcpSocketLocust.fired l) (TcpSocketLocust.clock l)
                        (S (TcpSocketLocust.ticks l)))
                   end).
  { unfold TcpSocketLocust.connect, bind, try_except_else,
      TcpSocketLocust.time_time, TcpSocketLocust.on_socket, zoom.
    cbn.
    destruct (Socket.connect host port (TcpSocketLocust.socket l))
      as [[[]|e|] s']; reflexivity. }
  pose proof (on_start_run u) as Hstart. fold l host port in Hstart.
  rewrite Hrun in Hstart. unfold connect_fails, connect_succeeds.
  rewrite Hrun.
  destruct (Socket.connect host port (TcpSocketLocust.socket l))
    as [[[]|e|] s']; [| |exact Hs].
  - destruct Hs as (Hc & Hn & Hnet & ->).
    split; [reflexivity|]. repeat (split; [assumption || reflexivity|]).
    eexists. split; [reflexivity|]. split; [reflexivity|exact Hstart].
  - destruct Hs as (-> & Hnet).
    split; [reflexivity|]. split; [exact Hnet|].
    split; [reflexivity|]. split; [reflexivity|].
    eexists. split; [reflexivity|]. split; [reflexivity|].
    split; [exact Hstart|]. intros n. now apply tasks_stopped.
Qed.

(** A server that refuses, and a server that accepts. *)
Lemma connect_outcome_witness :
  let u := UserBehavior.init refused_client in
  let v := UserBehavior.init (fresh_client []) in
  (sk_closed (TcpSocketLocust.socket refused_client) = false
   /\ sk_connected (TcpSocketLocust.socket refused_client) = false)
  /\ sk_net (TcpSocketLocust.socket refused_client) = Some refused
  /\ connect_fails TestTcpLocust.host TestTcpLocust.port refused_client
       refused
       (mkSock 1 false false (Some refused) [] []
               [OpConnect TestTcpLocust.host TestTcpLocust.port
                          (Some refused)])
  /\ fst (UserBehavior.on_start u) = Returns tt
  /\ UserBehavior.running (snd (UserBehavior.on_start u)) = false
  /\ connect_succeeds TestTcpLocust.host TestTcpLocust.port (fresh_client [])
       (mkSock 1 false true None [] []
               [OpConnect TestTcpLocust.host TestTcpLocust.port None])
  /\ UserBehavior.running (snd (UserBehavior.on_start v)) = true.
Proof.
  intros u v.
  assert (H1 : sk_closed (TcpSocketLocust.socket refused_client) = false)
    by reflexivity.
  assert (H2 : sk_connected (TcpSocketLocust.socket refused_client) = false)
    by reflexivity.
  split; [auto|].
  pose proof (connect_outcome u) as Hu.
  lazy -[connect_fails connect_succeeds UserBehavior.on_start
         UserBehavior.tasks TcpSocketLocust.connect] in Hu.
  destruct Hu as (Hfail & Hnet & _ & _ & l' & _ & _ & Hstart & _).
  pose proof (connect_outcome v) as Hv.
  lazy -[connect_fails connect_succeeds UserBehavior.on_start
         UserBehavior.tasks TcpSocketLocust.connect] in Hv.
  destruct Hv as (Hok & _ & _ & _ & _ & _ & l'' & _ & _ & Hstart').
  split; [exact (Hnet H1 H2)|]. split; [exact Hfail|].
  split; [exact (f_equal fst Hstart)|].
  split; [exact (f_equal (fun r => UserBehavior.running (snd r)) Hstart)|].
  split; [exact Hok|].
  exact (f_equal (fun r => UserBehavior.running (snd r)) Hstart').
Defined.

(** C8 (no retry).  When a cycle fails in a running client, the task
    catches the exception and sets [running] to [False]; the socket has
    been closed.  Every later invocation of the task, however many there
    are, returns at once and leaves the whole client as it is: the trace of
    the socket does not grow (no write, no read, no connect) and no event is
    fired. *)
Theorem no_retry_after_failure (u : UserBehavior.t) (e : exn)
    (l' : TcpSocketLocust.t) :
  UserBehavior.running u = true ->
  TcpSocketLocust.ping_pong (UserBehavior.locust u) = (Raises e, l') ->
  let u' := UserBehavior.mk l' false in
  UserBehavior.ping_pong u = (Returns tt, u')
  /\ sk_closed (TcpSocketLocust.socket l') = true
  /\ forall n : nat, UserBehavior.tasks n u' = (Returns tt, u').
Proof.
  intros Hr Hfail u'. split; [|split].
  - rewrite (task_running u Hr), Hfail. reflexivity.
  - destruct (ping_pong_inv (UserBehavior.locust u))
      as (r & s' & ev & ops & Hrun & _ & _ & _ & _ & Hcase).
    rewrite Hfail in Hrun. injection Hrun as <- ->.
    now destruct Hcase as (_ & _ & Hcl).
  - intros n. now apply tasks_stopped.
Qed.

(** The peer closes without answering: the first cycle fails, and no later
    invocation changes anything. *)
Lemma no_retry_after_failure_witness :
  let u := UserBehavior.init silent_client in
  let l' := snd (TcpSocketLocust.ping_pong silent_client) in
  let u' := UserBehavior.mk l' false in
  (UserBehavior.running u = true
   /\ TcpSocketLocust.ping_pong (UserBehavior.locust u)
      = (Raises (Exception "Error reading bytes."), l'))
  /\ UserBehavior.ping_pong u = (Returns tt, u')
  /\ sk_closed (TcpSocketLocust.socket l') = true
  /\ forall n : nat, UserBehavior.tasks n u' = (Returns tt, u').
Proof.
  intros u l' u'.
  assert (H1 : UserBehavior.running u = true) by reflexivity.
  assert (H2 : TcpSocketLocust.ping_pong (UserBehavior.locust u)
               = (Raises (Exception "Error reading bytes."), l'))
    by reflexivity.
  split; [auto|].
  exact (no_retry_after_failure u (Exception "Error reading bytes.") l'
           H1 H2).
Defined.

(* ================================================================== *)
(** ** Writing a frame *)

(** C6, as the claim states it, fails: in a cycle that succeeds the client
    has made two [sendall] calls, not one. *)
Lemma frame_single_write_counterexample :
  ~ (exists frame : bytes,
       sent (sk_trace (TcpSocketLocust.socket
                         (snd (TcpSocketLocust.ping_pong pong_client))))
       = [frame]).
Proof. intros [frame H]. vm_compute in H. discriminate H. Qed.

(** C6, amended.  A frame is written by two [sendall] calls in a row, the
    4-byte little-endian header first and the payload next.  On a
    connection that takes the writes, they are the first two calls of a
    client cycle, which makes no other write, and the only two calls of the
    server turn that answers a ["Ping"]. *)
Theorem frame_written_in_two_calls (l : TcpSocketLocust.t)
    (h h1 : Handler.t) (data : bytes) :
  to_bytes (len b_Ping) 4 = inr [x04; x00; x00; x00]
  /\ to_bytes (len b_Pong) 4 = inr [x04; x00; x00; x00]
  /\ (writable 2 (TcpSocketLocust.socket l) = true ->
      exists ops,
        sk_trace (TcpSocketLocust.socket (snd (TcpSocketLocust.ping_pong l)))
        = sk_trace (TcpSocketLocust.socket l)
          ++ [OpSendall [x04; x00; x00; x00] None; OpSendall b_Ping None]
          ++ ops
        /\ sent ops = [])
  /\ (Handler.on_request read_frame h = (Returns data, h1) ->
      decode data = inr (lit "Ping") ->
      writable 2 (Handler.request h1) = true ->
      exists h2,
        Handler.handle_turn h = (Returns true, h2)
        /\ sk_trace (Handler.request h2)
           = sk_trace (Handler.request h1)
             ++ [OpSendall [x04; x00; x00; x00] None;
                 OpSendall b_Pong None]).
Proof.
  split; [reflexivity|]. split; [reflexivity|]. split.
  - intros Hw. rewrite ping_pong_run.
    destruct (ping_pong_try_writes (snd (TcpSocketLocust.time_time l)) Hw)
      as (ops & Htr & Hops).
    cbn [snd TcpSocketLocust.time_time TcpSocketLocust.socket] in Htr.
    destruct (TcpSocketLocust.ping_pong_try (lit "Ping") _)
      as [[d|e|] l1]; cbn [snd TcpSocketLocust.socket] in *.
    + exists ops. split; [exact Htr|now apply sent_recv_only].
    + exists (ops ++ [OpClose]). cbn [log sk_trace set_closed].
      rewrite Htr, <- !app_assoc. split; [reflexivity|].
      rewrite sent_app, (sent_recv_only _ Hops). reflexivity.
    + exists ops. split; [exact Htr|now apply sent_recv_only].
  - intros Hread Hdec Hw.
    destruct (handle_turn_reply h h1 data Hread Hdec Hw)
      as (h2 & Hturn & Htr & _).
    exists h2. now split.
Qed.

Lemma frame_written_in_two_calls_witness :
  let h := server_on [RxData [x04; x00; x00; x00]; RxData b_Ping] in
  let h1 := snd (Handler.on_request read_frame h) in
  (writable 2 (TcpSocketLocust.socket pong_client) = true
   /\ Handler.on_request read_frame h = (Returns b_Ping, h1)
   /\ decode b_Ping = inr (lit "Ping")
   /\ writable 2 (Handler.request h1) = true)
  /\ (exists ops,
        sk_trace (TcpSocketLocust.socket
                    (snd (TcpSocketLocust.ping_pong pong_client)))
        = sk_trace (TcpSocketLocust.socket pong_client)
          ++ [OpSendall [x04; x00; x00; x00] None; OpSendall b_Ping None]
          ++ ops
        /\ sent ops = [])
  /\ (exists h2,
        Handler.handle_turn h = (Returns true, h2)
        /\ sk_trace (Handler.request h2)
           = sk_trace (Handler.request h1)
             ++ [OpSendall [x04; x00; x00; x00] None;
                 OpSendall b_Pong None]).
Proof.
  intros h h1.
  assert (H1 : writable 2 (TcpSocketLocust.socket pong_client) = true)
    by reflexivity.
  assert (H2 : Handler.on_request read_frame h = (Returns b_Ping, h1))
    by reflexivity.
  assert (H3 : decode b_Ping = inr (lit "Ping")) by reflexivity.
  assert (H4 : writable 2 (Handler.request h1) = true) by reflexivity.
  split; [auto|].
  destruct (frame_written_in_two_calls pong_client h h1 b_Ping)
    as (_ & _ & Hc & Hs).
  split; [exact (Hc H1)|exact (Hs H2 H3 H4)].
Defined.

(* ================================================================== *)
(** ** What an event carries *)

(** C7, as the claim states it, fails: the event of a connect attempt that
    is refused carries no byte length, so not the length 0. *)
Lemma failure_event_length_counterexample :
  ~ (forall ev : event,
       In ev (TcpSocketLocust.fired
                (snd (TcpSocketLocust.connect TestTcpLocust.host
                        TestTcpLocust.port refused_client))) ->
       exists n : N,
         response_length_of ev = Some n
         /\ (exception_of ev <> None -> n = 0)).
Proof.
  intros H.
  destruct (H (request_failure "tcp" "connect" 7 refused)) as (n & Hn & _).
  - left. reflexivity.
  - discriminate Hn.
Qed.

(** C7, amended.  A connect attempt and a ping-pong cycle each fire one
    event.  The event of an operation that succeeds carries the byte length
    of the payload received and no exception: 0 for ["connect"], 4 for
    ["ping-pong"].  The event of an operation that fails carries the
    exception raised and no byte length: [request_failure] is fired without
    a [response_length]. *)
Theorem event_length (host : string) (port : N) (l : TcpSocketLocust.t) :
  (match TcpSocketLocust.connect host port l with
   | (r, l') =>
     exists ev,
       TcpSocketLocust.fired l' = TcpSocketLocust.fired l ++ [ev]
       /\ name_of ev = "connect"%string
       /\ match r with
          | Returns _ =>
            response_length_of ev = Some 0 /\ exception_of ev = None
          | Raises e =>
            response_length_of ev = None /\ exception_of ev = Some e
          | OutOfFuel => False
          end
   end)
  /\ (match TcpSocketLocust.ping_pong l with
      | (r, l') =>
        exists ev,
          TcpSocketLocust.fired l' = TcpSocketLocust.fired l ++ [ev]
          /\ name_of ev = "ping-pong"%string
          /\ match r with
             | Returns _ =>
               response_length_of ev = Some (len b_Pong)
               /\ exception_of ev = None
             | Raises e =>
               response_length_of ev = None /\ exception_of ev = Some e
             | OutOfFuel => False
             end
      end).
Proof.
  split.
  - destruct (connect_inv host port l) as (r & s' & ev & -> & _ & _ & Hr).
    exists ev. split; [reflexivity|].
    destruct r as [ok|e|]; [| |contradiction].
    + destruct Hr as (_ & -> & _). repeat split.
    + destruct Hr as (-> & _). repeat split.
  - destruct (ping_pong_inv l)
      as (r & s' & ev & ops & -> & _ & _ & _ & _ & Hr).
    exists ev. split; [reflexivity|].
    destruct r as [[]|e|]; [| |contradiction].
    + destruct Hr as (-> & _). repeat split.
    + destruct Hr as (-> & _). repeat split.
Qed.


(* ================================================================== *)
(** * Further properties of the code *)

(** ** [read_bytes]: exactly [length] bytes, or the error of the socket *)

(** X1 ([read_bytes] reads exactly what is asked).  Whenever [read_bytes n]
    returns, the result has exactly [n] bytes, they are the bytes that its
    [recv] calls returned, in order, and exactly [n] bytes have left the
    stream: nothing of what follows is consumed.  Whatever the outcome, the
    calls made are [recv] calls only, on the same connection. *)
Theorem read_bytes_exact (n : N) (s : sock) :
  match read_bytes n s with
  | (Returns d, s') =>
    len d = n
    /\ (rx_pending (sk_rx s') + N.to_nat n = rx_pending (sk_rx s))%nat
    /\ same_conn s s'
    /\ exists ops,
        sk_trace s' = sk_trace s ++ ops
        /\ forallb is_recv ops = true /\ received ops = d
  | (Raises _, s') =>
    same_conn s s'
    /\ exists ops,
        sk_trace s' = sk_trace s ++ ops /\ forallb is_recv ops = true
  | (OutOfFuel, _) => False
  end.
Proof.
  pose proof (read_bytes_inv n s) as H.
  destruct (read_bytes n s) as [[d|e|] s'];
    destruct H as (Hc & _ & ops & Htr & Hops & H).
  - destruct H as (Hd & Hlen & Hp). split; [exact Hlen|]. split.
    + unfold len in Hlen. lia.
    + split; [exact Hc|]. exists ops. auto.
  - split; [exact Hc|]. exists ops. auto.
  - exact H.
Qed.

Lemma read_loop_step (fuel : nat) (length : N) (data : bytes) (s : sock) :
  len data < length ->
  read_loop (S fuel) length data s
  = match Socket.recv (length - len data) s with
    | (Returns (b :: chunk), s') =>
      read_loop fuel length (data ++ b :: chunk) s'
    | (Returns [], s') => (Raises (Exception "Error reading bytes."), s')
    | (Raises e, s') => (Raises e, s')
    | (OutOfFuel, s') => (OutOfFuel, s')
    end.
Proof.
  intros H. unfold read_loop at 1. fold read_loop.
  apply N.ltb_lt in H. rewrite H. unfold bind.
  destruct (Socket.recv (length - len data) s) as [[[|b chunk]|e|] s'];
    reflexivity.
Qed.

(** When the connection fails before the loop has its [length] bytes, the
    loop raises the error of the socket. *)
Lemma read_loop_error (chunks : list bytes) :
  forall (fuel : nat) (length : N) (data : bytes) (e : exn)
         (rest : list rx_event) (s : sock),
    delivers chunks (RxError e :: rest) s -> nonempty chunks ->
    len data + len (List.concat chunks) < length ->
    (List.length chunks < fuel)%nat ->
    exists s',
      read_loop fuel length data s = (Raises e, s')
      /\ sk_rx s' = rest
      /\ exists ops,
          sk_trace s'
          = sk_trace s ++ ops
            ++ [OpRecv (length - len data - len (List.concat chunks))
                       (inl e)].
Proof.
  induction chunks as [|c chunks IH];
    intros fuel length data e rest s (Hc & Hn & Hrx) Hne Hlen Hfuel;
    (destruct fuel as [|fuel]; [simpl in Hfuel; lia|]);
    rewrite read_loop_step by lia;
    unfold Socket.recv; rewrite Hc, Hn, Hrx; cbn [map app negb].
  - eexists. split; [reflexivity|]. split; [reflexivity|]. exists [].
    cbn. now rewrite N.sub_0_r.
  - simpl in Hlen. rewrite len_app in Hlen.
    assert (Hle : len c <= length - len data) by lia.
    rewrite (take_all _ _ Hle), (drop_all _ _ Hle).
    pose proof (Forall_inv Hne) as Hc0.
    pose proof (Forall_inv_tail Hne) as Hne'.
    destruct c as [|b c]; [congruence|].
    destruct (IH fuel length (data ++ b :: c) e rest
                 (log (OpRecv (length - len data) (inr (b :: c)))
                      (set_rx (map RxData chunks ++ RxError e :: rest) s)))
      as (s' & Hrun & Hrest & ops & Htr); auto.
    + repeat split; auto.
    + rewrite len_app. lia.
    + simpl in Hfuel. lia.
    + exists s'. split; [exact Hrun|]. split; [exact Hrest|].
      exists (OpRecv (length - len data) (inr (b :: c)) :: ops).
      rewrite Htr. cbn [log sk_trace set_rx List.concat].
      rewrite !len_app, <- !app_assoc. cbn [app].
      replace (length - (len data + len (b :: c))
               - len (List.concat chunks))
        with (length - len data
              - (len (b :: c) + len (List.concat chunks))) by lia.
      reflexivity.
Qed.

(** X2 ([read_bytes] lets the error of the socket through).  When the
    stream delivers fewer than [length] bytes and then the connection fails
    with [e], [read_bytes length] raises [e] itself, not
    [Exception("Error reading bytes.")]; the bytes read so far are dropped
    with the local [data], and the failing [recv] is the last call. *)
Theorem read_bytes_recv_error (chunks : list bytes) (length : N) (e : exn)
    (rest : list rx_event) (s : sock) :
  delivers chunks (RxError e :: rest) s -> nonempty chunks ->
  len (List.concat chunks) < length ->
  exists s',
    read_bytes length s = (Raises e, s')
    /\ sk_rx s' = rest
    /\ exists ops,
        sk_trace s'
        = sk_trace s ++ ops
          ++ [OpRecv (length - len (List.concat chunks)) (inl e)].
Proof.
  intros Hd Hne Hlen. unfold read_bytes.
  destruct (read_loop_error chunks (S (rx_pending (sk_rx s))) length [] e
              rest s Hd Hne)
    as (s' & Hrun & Hrest & ops & Htr).
  - exact Hlen.
  - destruct Hd as (_ & _ & ->).
    pose proof (rx_pending_chunks chunks (RxError e :: rest) Hne). lia.
  - exists s'. split; [exact Hrun|]. split; [exact Hrest|]. exists ops.
    rewrite Htr. now rewrite N.sub_0_r.
Qed.

(** Two bytes of a header, then a reset of the connection. *)
Lemma read_bytes_recv_error_witness :
  let reset := OSError "[Errno 104] Connection reset by peer" in
  let chunks := [[x04]; [x00]] in
  let s := mkSock 0 false true None
             (map RxData chunks ++ [RxError reset; RxData [x00]]) [] [] in
  (delivers chunks [RxError reset; RxData [x00]] s /\ nonempty chunks
   /\ len (List.concat chunks) < 4)
  /\ exists s',
      read_bytes 4 s = (Raises reset, s')
      /\ sk_rx s' = [RxData [x00]]
      /\ exists ops,
          sk_trace s'
          = sk_trace s ++ ops
            ++ [OpRecv (4 - len (List.concat chunks)) (inl reset)].
Proof.
  intros reset chunks s.
  assert (H1 : delivers chunks [RxError reset; RxData [x00]] s)
    by (repeat split).
  assert (H2 : nonempty chunks) by (repeat constructor; discriminate).
  assert (H3 : len (List.concat chunks) < 4) by reflexivity.
  split; [auto|].
  exact (read_bytes_recv_error chunks 4 reset [RxData [x00]] s H1 H2 H3).
Defined.

(** ** The server, over a whole connection *)

Lemma writes_succ (m : bytes) (k : nat) :
  writes m (S k) = [hdr4; m] ++ writes m k.
Proof. reflexivity. Qed.

Lemma frames_succ (f : bytes) (k : nat) :
  frames f (S k) = f ++ frames f k.
Proof. reflexivity. Qed.

(** Everything one turn of the server loop can do.  It goes on after
    reading the frame of ["Ping"] and writing the header and ["Pong"]; it
    breaks after printing one exception, having written nothing, or the
    header alone when the second write failed. *)
Lemma handle_turn_cases (h : Handler.t) :
  match Handler.handle_turn h with
  | (Returns true, h') =>
    Handler.stdout h' = Handler.stdout h
    /\ same_conn (Handler.request h) (Handler.request h')
    /\ (rx_pending (sk_rx (Handler.request h')) + 8
        = rx_pending (sk_rx (Handler.request h)))%nat
    /\ exists ops,
        sk_trace (Handler.request h')
        = sk_trace (Handler.request h)
          ++ ops ++ [OpSendall hdr4 None; OpSendall b_Pong None]
        /\ forallb is_recv ops = true
        /\ received ops = frame_Ping
  | (Returns false, h') =>
    exists e,
      Handler.stdout h' = Handler.stdout h ++ [PrintExn e]
      /\ same_conn (Handler.request h) (Handler.request h')
      /\ exists ops,
          sk_trace (Handler.request h') = sk_trace (Handler.request h) ++ ops
          /\ io_only ops
          /\ (sent ops = [] \/ sent ops = [hdr4])
  | (Raises _, _) => False
  | (OutOfFuel, _) => False
  end.
Proof.
  rewrite handle_turn_framed.
  unfold try_except, try_except_else, bind, Handler.on_request, zoom.
  run_read_frame Hf.
  2:{ destruct Hf as (Hc & _ & ops & Htr & Hops & _). exists exc.
      split; [reflexivity|]. split; [exact Hc|]. exists ops.
      split; [exact Htr|]. split; [now apply io_only_recv|].
      left. now apply sent_recv_only. }
  destruct Hf as (Hc & _ & ops & Htr & Hops & header & Hrecv & Hlen & Hval
                  & Hp).
  destruct (decode data) as [e|text] eqn:Hdec; cbn.
  { exists e. split; [reflexivity|]. split; [exact Hc|]. exists ops.
    split; [exact Htr|]. split; [now apply io_only_recv|].
    left. now apply sent_recv_only. }
  case_str_eqb Heq; cbn.
  2:{ eexists. split; [reflexivity|]. split; [exact Hc|]. exists ops.
      split; [exact Htr|]. split; [now apply io_only_recv|].
      left. now apply sent_recv_only. }
  apply str_eqb_eq in Heq. subst text.
  apply (proj1 (decode_Ping data)) in Hdec. subst data.
  assert (Hhdr : header = hdr4).
  { rewrite <- (le_digits_from_bytes header), Hval.
    replace (List.length header) with 4%nat by (unfold len in Hlen; lia).
    reflexivity. }
  subst header.
  run_sendall Hs1.
  2:{ destruct Hs1 as (Hc1 & _ & Htr1 & _). exists exc.
      split; [reflexivity|].
      split; [eapply same_conn_trans; eauto|].
      eexists. split; [rewrite Htr1, Htr, <- app_assoc; reflexivity|].
      split; [apply io_only_app; [now apply io_only_recv|reflexivity]|].
      left. rewrite sent_app, (sent_recv_only _ Hops). reflexivity. }
  destruct Hs1 as (Hc1 & Hrx1 & Htr1 & _).
  run_sendall Hs2.
  2:{ destruct Hs2 as (Hc2 & _ & Htr2 & _). exists exc.
      split; [reflexivity|].
      split; [eapply same_conn_trans; [|exact Hc2];
              eapply same_conn_trans; eauto|].
      eexists.
      split; [rewrite Htr2, Htr1, Htr, <- !app_assoc; reflexivity|].
      split; [apply io_only_app; [now apply io_only_recv|reflexivity]|].
      right. rewrite sent_app, (sent_recv_only _ Hops). reflexivity. }
  destruct Hs2 as (Hc2 & Hrx2 & Htr2 & _).
  split; [reflexivity|].
  split; [eapply same_conn_trans; [|exact Hc2];
          eapply same_conn_trans; eauto|].
  split; [rewrite Hrx2, Hrx1; simpl in Hp; lia|].
  exists ops. split; [rewrite Htr2, Htr1, Htr, <- !app_assoc; reflexivity|].
  split; [exact Hops|exact Hrecv].
Qed.

Lemma handle_loop_shape (fuel : nat) :
  forall h : Handler.t,
    (rx_pending (sk_rx (Handler.request h)) < fuel)%nat ->
    exists h' k e ops tail,
      Handler.handle_loop fuel h = (Returns tt, h')
      /\ Handler.stdout h' = Handler.stdout h ++ [PrintExn e]
      /\ same_conn (Handler.request h) (Handler.request h')
      /\ sk_trace (Handler.request h') = sk_trace (Handler.request h) ++ ops
      /\ io_only ops
      /\ (sent ops = writes b_Pong k \/ sent ops = writes b_Pong k ++ [hdr4])
      /\ received ops = frames frame_Ping k ++ tail.
Proof.
  induction fuel as [|fuel IH]; intros h Hfuel; [lia|].
  cbn [Handler.handle_loop]. unfold bind.
  pose proof (handle_turn_cases h) as Ht.
  destruct (Handler.handle_turn h) as [[[|]|e|] h1]; try contradiction.
  - destruct Ht as (Hout & Hc & Hp & ops1 & Htr1 & Hops1 & Hrecv1).
    destruct (IH h1) as (h' & k & e & ops & tail & Hrun & Hout' & Hc' & Htr'
                         & Hio & Hsent & Hrecv); [lia|].
    exists h', (S k), e,
      (ops1 ++ [OpSendall hdr4 None; OpSendall b_Pong None] ++ ops), tail.
    split; [exact Hrun|]. split; [congruence|].
    split; [eapply same_conn_trans; eauto|].
    split; [rewrite Htr', Htr1, <- !app_assoc; reflexivity|].
    split; [apply io_only_app; [now apply io_only_recv|];
            apply (io_only_app [_; _]); [reflexivity|exact Hio]|].
    split.
    + rewrite sent_app, (sent_recv_only _ Hops1), writes_succ.
      cbn [app sent]. destruct Hsent as [-> | ->]; [left|right]; reflexivity.
    + rewrite received_app, Hrecv1, frames_succ. cbn [app received].
      rewrite Hrecv, <- !app_assoc. reflexivity.
  - destruct Ht as (e & Hout & Hc & ops & Htr & Hio & Hsent).
    exists h1, O, e, ops, (received ops).
    repeat split; try assumption; apply Hc.
Qed.

(** X3 (what a connection can make the server do).  For every state of the
    connection, [handle] returns: no exception leaves it.  It prints its
    greeting and exactly one exception, the one that ended the loop.  It
    never closes the socket; it only reads and writes.  What it wrote is,
    for some [k], [k] replies of two writes each, the header and [b"Pong"],
    followed by one lone header at most (when the payload write failed);
    and what it read starts with [k] frames of ["Ping"]: the server never
    writes a reply that was not asked for. *)
Theorem handle_run_shape (h : Handler.t) :
  exists h' k e ops tail,
    Handler.handle h = (Returns tt, h')
    /\ Handler.stdout h'
       = Handler.stdout h
         ++ [PrintStr "Handling a connection."; PrintExn e]
    /\ same_conn (Handler.request h) (Handler.request h')
    /\ sk_trace (Handler.request h') = sk_trace (Handler.request h) ++ ops
    /\ io_only ops
    /\ (sent ops = writes b_Pong k \/ sent ops = writes b_Pong k ++ [hdr4])
    /\ received ops = frames frame_Ping k ++ tail.
Proof.
  unfold Handler.handle, bind, Handler.print.
  match goal with
  | |- context [Handler.handle_loop ?f ?h0] =>
    destruct (handle_loop_shape f h0)
      as (h' & k & e & ops & tail & Hrun & Hout & Hc & Htr & Hio & Hsent
          & Hrecv); [cbn; lia|]
  end.
  exists h', k, e, ops, tail. cbn in Hout, Hc, Htr.
  split; [exact Hrun|]. split; [rewrite Hout, <- app_assoc; reflexivity|].
  auto.
Qed.

(** The answer to a ["Ping"] on a connection that takes [2 + n] writes. *)
Lemma handle_turn_answers (n : nat) (h h1 : Handler.t) :
  Handler.on_request read_frame h = (Returns b_Ping, h1) ->
  writable (2 + n) (Handler.request h1) = true ->
  exists h2,
    Handler.handle_turn h = (Returns true, h2)
    /\ sk_trace (Handler.request h2)
       = sk_trace (Handler.request h1)
         ++ [OpSendall hdr4 None; OpSendall b_Pong None]
    /\ same_conn (Handler.request h1) (Handler.request h2)
    /\ sk_rx (Handler.request h2) = sk_rx (Handler.request h1)
    /\ Handler.stdout h2 = Handler.stdout h1
    /\ writable n (Handler.request h2) = true.
Proof.
  intros Hread Hw.
  destruct (sendall_writable hdr4 (S n) _ Hw)
    as (s2 & Hs2 & Hc2 & Hrx2 & Htr2 & Hw2).
  destruct (sendall_writable b_Pong n _ Hw2)
    as (s3 & Hs3 & Hc3 & Hrx3 & Htr3 & Hw3).
  exists (Handler.mk s3 (Handler.stdout h1)).
  split.
  { rewrite handle_turn_framed.
    unfold try_except, try_except_else, bind.
    rewrite Hread. unfold Handler.on_request, zoom. cbn.
    unfold hdr4 in Hs2. rewrite Hs2. cbn. unfold b_Pong in Hs3.
    rewrite Hs3. reflexivity. }
  cbn [Handler.request Handler.stdout].
  split; [rewrite Htr3, Htr2, <- app_assoc; reflexivity|].
  split; [eapply same_conn_trans; eauto|].
  split; [congruence|]. split; [reflexivity|exact Hw3].
Qed.

Lemma nonempty_concat_nil (chunks : list bytes) :
  nonempty chunks -> List.concat chunks = [] -> chunks = [].
Proof.
  intros Hne H. destruct chunks as [|c chunks]; [reflexivity|].
  pose proof (Forall_inv Hne) as Hc. simpl in H.
  apply app_eq_nil in H as [-> _]. congruence.
Qed.

Lemma handle_loop_pings (k : nat) :
  forall (fuel : nat) (chunks : list bytes) (h : Handler.t),
    delivers chunks [] (Handler.request h) -> nonempty chunks ->
    List.concat chunks = frames frame_Ping k ->
    writable (2 * k) (Handler.request h) = true ->
    (rx_pending (sk_rx (Handler.request h)) < fuel)%nat ->
    exists h',
      Handler.handle_loop fuel h = (Returns tt, h')
      /\ sent (sk_trace (Handler.request h'))
         = sent (sk_trace (Handler.request h)) ++ writes b_Pong k
      /\ Handler.stdout h'
         = Handler.stdout h ++ [PrintExn (Exception "Error reading bytes.")]
      /\ same_conn (Handler.request h) (Handler.request h').
Proof.
  induction k as [|k IH]; intros fuel chunks h Hd Hne Hcat Hw Hfuel;
    (destruct fuel as [|fuel]; [lia|]);
    cbn [Handler.handle_loop]; unfold bind.
  - (* the stream is at its end *)
    apply (nonempty_concat_nil _ Hne) in Hcat. subst chunks.
    destruct (read_bytes_eof [] 4 (Handler.request h) Hd)
      as (s1 & Hrun & _); [reflexivity|].
    pose proof (read_bytes_inv 4 (Handler.request h)) as Hinv.
    rewrite Hrun in Hinv. destruct Hinv as (Hc & _ & ops & Htr & Hops & _).
    assert (Hturn : Handler.handle_turn h
                    = (Returns false,
                       Handler.mk s1
                         (Handler.stdout h
                          ++ [PrintExn (Exception "Error reading bytes.")]))).
    { rewrite handle_turn_framed.
      unfold try_except, try_except_else, bind, Handler.on_request, zoom,
        read_frame, bind.
      rewrite Hrun. reflexivity. }
    rewrite Hturn. eexists. split; [reflexivity|].
    cbn [Handler.request Handler.stdout].
    split; [|split; [reflexivity|exact Hc]].
    rewrite Htr, sent_app, (sent_recv_only _ Hops). reflexivity.
  - (* one more frame, one more reply *)
    rewrite frames_succ in Hcat. unfold frame_Ping in Hcat.
    rewrite <- app_assoc in Hcat.
    destruct (read_frame_chunks b_Ping hdr4 (frames frame_Ping k) chunks []
                (Handler.request h) eq_refl Hd Hne Hcat)
      as (s1 & chunks1 & Hrun & Hd1 & Hne1 & Hcat1).
    pose proof (read_frame_inv (Handler.request h)) as Hinv.
    rewrite Hrun in Hinv.
    destruct Hinv as (Hc1 & Htx1 & ops & Htr1 & Hops & header & _ & _ & _
                      & Hp).
    assert (Hread : Handler.on_request read_frame h
                    = (Returns b_Ping, Handler.set_request s1 h)).
    { unfold Handler.on_request, zoom. now rewrite Hrun. }
    assert (Hw1 : writable (2 + 2 * k) s1 = true).
    { rewrite (writable_same _ _ _ Hc1 Htx1).
      replace (2 + 2 * k)%nat with (2 * S k)%nat by lia. exact Hw. }
    destruct (handle_turn_answers (2 * k) h _ Hread Hw1)
      as (h2 & Hturn & Htr2 & Hc2 & Hrx2 & Hout2 & Hw2).
    cbn [Handler.request Handler.set_request Handler.stdout] in *.
    rewrite Hturn.
    destruct (IH fuel chunks1 h2) as (h' & Hrun' & Hsent & Hout & Hc');
      auto.
    + destruct Hd1 as (Hcl & Hcn & Hrx1).
      destruct Hc2 as (_ & Hcl2 & Hcn2 & _).
      repeat split; congruence.
    + rewrite Hrx2. simpl in Hp. lia.
    + exists h'. split; [exact Hrun'|].
      split; [|split; [congruence|
                       eapply same_conn_trans; [exact Hc1|];
                       eapply same_conn_trans; eauto]].
      rewrite Hsent, Htr2, Htr1, !sent_app, (sent_recv_only _ Hops),
        writes_succ.
      cbn [sent app]. rewrite <- !app_assoc. reflexivity.
Qed.

(** X4 (one reply for each request).  Let the stream be [k] frames of
    ["Ping"], cut into non-empty chunks in any way, and then the end, on a
    connection that takes the writes.  Then [handle] writes exactly [k]
    replies, header and [b"Pong"] in turn, [2 * k] writes in all, prints
    [Error reading bytes.] when the stream ends, and returns. *)
Theorem server_answers_each_ping (k : nat) (chunks : list bytes)
    (h : Handler.t) :
  delivers chunks [] (Handler.request h) -> nonempty chunks ->
  List.concat chunks = frames frame_Ping k ->
  writable (2 * k) (Handler.request h) = true ->
  exists h',
    Handler.handle h = (Returns tt, h')
    /\ sent (sk_trace (Handler.request h'))
       = sent (sk_trace (Handler.request h)) ++ writes b_Pong k
    /\ Handler.stdout h'
       = Handler.stdout h
         ++ [PrintStr "Handling a connection.";
             PrintExn (Exception "Error reading bytes.")]
    /\ sk_closed (Handler.request h') = false.
Proof.
  intros Hd Hne Hcat Hw. unfold Handler.handle, bind, Handler.print.
  match goal with
  | |- context [Handler.handle_loop ?f ?h0] =>
    destruct (handle_loop_pings k f chunks h0 Hd Hne Hcat Hw)
      as (h' & Hrun & Hsent & Hout & Hc); [cbn; lia|]
  end.
  exists h'. cbn in Hsent, Hout, Hc.
  split; [exact Hrun|]. split; [exact Hsent|].
  split; [rewrite Hout, <- app_assoc; reflexivity|].
  destruct Hc as (_ & -> & _). apply Hd.
Qed.

(** Three requests, delivered in pieces that do not follow the frames. *)
Lemma server_answers_each_ping_witness :
  let chunks := [[x04; x00; x00]; [x00; x50; x69; x6e; x67; x04];
                 [x00; x00; x00; x50; x69]; [x6e];
                 [x67; x04; x00; x00; x00; x50; x69; x6e; x67]] in
  let h := server_on (map RxData chunks) in
  (delivers chunks [] (Handler.request h) /\ nonempty chunks
   /\ List.concat chunks = frames frame_Ping 3
   /\ writable (2 * 3) (Handler.request h) = true)
  /\ exists h',
      Handler.handle h = (Returns tt, h')
      /\ sent (sk_trace (Handler.request h'))
         = sent (sk_trace (Handler.request h)) ++ writes b_Pong 3
      /\ Handler.stdout h'
         = Handler.stdout h
           ++ [PrintStr "Handling a connection.";
               PrintExn (Exception "Error reading bytes.")]
      /\ sk_closed (Handler.request h') = false.
Proof.
  intros chunks h.
  assert (H1 : delivers chunks [] (Handler.request h)) by (repeat split).
  assert (H2 : nonempty chunks) by (repeat constructor; discriminate).
  assert (H3 : List.concat chunks = frames frame_Ping 3) by reflexivity.
  assert (H4 : writable (2 * 3) (Handler.request h) = true) by reflexivity.
  split; [auto|].
  exact (server_answers_each_ping 3 chunks h H1 H2 H3 H4).
Defined.

(** ** Writes that fail *)

(** X5 (a reply cut short).  The server writes its reply in two [sendall]
    calls inside one [try].  After a ["Ping"], on an open connection: if the
    first write fails with [e], nothing is written; if the first goes
    through and the second fails with [e], the header [04 00 00 00] is on
    the wire without its payload.  In both cases the turn prints [e], the
    loop ends, and the socket is left open. *)
Theorem handle_turn_write_failure (h h1 : Handler.t) (e : exn)
    (tx : list (option exn)) (fuel : nat) :
  Handler.on_request read_frame h = (Returns b_Ping, h1) ->
  sk_closed (Handler.request h1) = false ->
  sk_connected (Handler.request h1) = true ->
  (sk_tx (Handler.request h1) = Some e :: tx ->
   exists h2,
     Handler.handle_loop (S fuel) h = (Returns tt, h2)
     /\ Handler.stdout h2 = Handler.stdout h1 ++ [PrintExn e]
     /\ sk_trace (Handler.request h2)
        = sk_trace (Handler.request h1) ++ [OpSendall hdr4 (Some e)]
     /\ sk_closed (Handler.request h2) = false)
  /\ (sk_tx (Handler.request h1) = None :: Some e :: tx ->
      exists h2,
        Handler.handle_loop (S fuel) h = (Returns tt, h2)
        /\ Handler.stdout h2 = Handler.stdout h1 ++ [PrintExn e]
        /\ sk_trace (Handler.request h2)
           = sk_trace (Handler.request h1)
             ++ [OpSendall hdr4 None; OpSendall b_Pong (Some e)]
        /\ sent (sk_trace (Handler.request h2))
           = sent (sk_trace (Handler.request h1)) ++ [hdr4]
        /\ sk_closed (Handler.request h2) = false).
Proof.
  intros Hread Hc Hn.
  split; intros Htx; cbn [Handler.handle_loop]; unfold bind at 1;
    rewrite handle_turn_framed;
    unfold try_except, try_except_else, bind; rewrite Hread;
    unfold Handler.on_request, zoom; cbn;
    unfold Socket.sendall; cbn; rewrite Hc, Hn, Htx; cbn;
    try (rewrite Hc, Hn; cbn);
    eexists; (split; [reflexivity|]); cbn.
  - repeat split. exact Hc.
  - rewrite <- app_assoc. repeat split; [|exact Hc].
    rewrite sent_app. reflexivity.
Qed.

(** A ["Ping"], then a connection that takes the header and is reset. *)
Lemma handle_turn_write_failure_witness :
  let reset := OSError "[Errno 104] Connection reset by peer" in
  let h := Handler.mk (mkSock 0 false true None [RxData frame_Ping]
                         [None; Some reset] []) [] in
  let h1 := snd (Handler.on_request read_frame h) in
  (Handler.on_request read_frame h = (Returns b_Ping, h1)
   /\ sk_closed (Handler.request h1) = false
   /\ sk_connected (Handler.request h1) = true
   /\ sk_tx (Handler.request h1) = None :: Some reset :: [])
  /\ exists h2,
      Handler.handle_loop 1 h = (Returns tt, h2)
      /\ Handler.stdout h2 = Handler.stdout h1 ++ [PrintExn reset]
      /\ sk_trace (Handler.request h2)
         = sk_trace (Handler.request h1)
           ++ [OpSendall hdr4 None; OpSendall b_Pong (Some reset)]
      /\ sent (sk_trace (Handler.request h2))
         = sent (sk_trace (Handler.request h1)) ++ [hdr4]
      /\ sk_closed (Handler.request h2) = false.
Proof.
  intros reset h h1.
  assert (H1 : Handler.on_request read_frame h = (Returns b_Ping, h1))
    by reflexivity.
  assert (H2 : sk_closed (Handler.request h1) = false) by reflexivity.
  assert (H3 : sk_connected (Handler.request h1) = true) by reflexivity.
  assert (H4 : sk_tx (Handler.request h1) = None :: Some reset :: [])
    by reflexivity.
  split; [auto|].
  exact (proj2 (handle_turn_write_failure h h1 reset [] 0 H1 H2 H3) H4).
Defined.

(** X6 (a request cut short).  The client writes its request in two
    [sendall] calls.  On an open, connected socket: if the first write fails
    with [e], or the first goes through and the second fails with [e], the
    cycle raises [e] without a single [recv]: it fires one failure event
    carrying [e] and closes the socket.  In the second case the header
    [04 00 00 00] has been written without its payload. *)
Theorem ping_pong_write_failure (l : TcpSocketLocust.t) (e : exn)
    (tx : list (option exn)) :
  sk_closed (TcpSocketLocust.socket l) = false ->
  sk_connected (TcpSocketLocust.socket l) = true ->
  (sk_tx (TcpSocketLocust.socket l) = Some e :: tx ->
   exists l',
     TcpSocketLocust.ping_pong l = (Raises e, l')
     /\ TcpSocketLocust.fired l'
        = TcpSocketLocust.fired l
          ++ [request_failure "tcp" "ping-pong" (elapsed l) e]
     /\ sk_trace (TcpSocketLocust.socket l')
        = sk_trace (TcpSocketLocust.socket l)
          ++ [OpSendall hdr4 (Some e); OpClose]
     /\ sk_rx (TcpSocketLocust.socket l') = sk_rx (TcpSocketLocust.socket l))
  /\ (sk_tx (TcpSocketLocust.socket l) = None :: Some e :: tx ->
      exists l',
        TcpSocketLocust.ping_pong l = (Raises e, l')
        /\ TcpSocketLocust.fired l'
           = TcpSocketLocust.fired l
             ++ [request_failure "tcp" "ping-pong" (elapsed l) e]
        /\ sk_trace (TcpSocketLocust.socket l')
           = sk_trace (TcpSocketLocust.socket l)
             ++ [OpSendall hdr4 None; OpSendall b_Ping (Some e); OpClose]
        /\ sk_rx (TcpSocketLocust.socket l')
           = sk_rx (TcpSocketLocust.socket l)).
Proof.
  intros Hc Hn.
  split; intros Htx; rewrite ping_pong_run, ping_pong_try_framed;
    unfold bind, TcpSocketLocust.on_socket, zoom; cbn;
    unfold Socket.sendall; cbn; rewrite Hc, Hn, Htx; cbn;
    try (rewrite Hc, Hn; cbn);
    eexists; (split; [reflexivity|]); cbn;
    rewrite <- ?app_assoc; repeat split.
Qed.

Lemma ping_pong_write_failure_witness :
  let l := TestTcpLocust.init
             (mkSock 1 false true None [RxData frame_Pong]
                     [None; Some EPIPE] []) sample_clock in
  (sk_closed (TcpSocketLocust.socket l) = false
   /\ sk_connected (TcpSocketLocust.socket l) = true
   /\ sk_tx (TcpSocketLocust.socket l) = None :: Some EPIPE :: [])
  /\ exists l',
      TcpSocketLocust.ping_pong l = (Raises EPIPE, l')
      /\ TcpSocketLocust.fired l'
         = TcpSocketLocust.fired l
           ++ [request_failure "tcp" "ping-pong" (elapsed l) EPIPE]
      /\ sk_trace (TcpSocketLocust.socket l')
         = sk_trace (TcpSocketLocust.socket l)
           ++ [OpSendall hdr4 None; OpSendall b_Ping (Some EPIPE); OpClose]
      /\ sk_rx (TcpSocketLocust.socket l')
         = sk_rx (TcpSocketLocust.socket l).
Proof.
  intros l.
  assert (H1 : sk_closed (TcpSocketLocust.socket l) = false) by reflexivity.
  assert (H2 : sk_connected (TcpSocketLocust.socket l) = true)
    by reflexivity.
  assert (H3 : sk_tx (TcpSocketLocust.socket l) = None :: Some EPIPE :: [])
    by reflexivity.
  split; [auto|].
  exact (proj2 (ping_pong_write_failure l EPIPE [] H1 H2) H3).
Defined.

(** ** Why the task set keeps a flag *)

(** A cycle on a socket that has been closed fails at its first write. *)
Lemma ping_pong_closed (l : TcpSocketLocust.t) :
  sk_closed (TcpSocketLocust.socket l) = true ->
  exists l',
    TcpSocketLocust.ping_pong l = (Raises EBADF, l')
    /\ TcpSocketLocust.fired l'
       = TcpSocketLocust.fired l
         ++ [request_failure "tcp" "ping-pong" (elapsed l) EBADF]
    /\ sk_trace (TcpSocketLocust.socket l')
       = sk_trace (TcpSocketLocust.socket l)
         ++ [OpSendall hdr4 (Some EBADF); OpClose].
Proof.
  intros Hc. rewrite ping_pong_run, ping_pong_try_framed.
  unfold bind, TcpSocketLocust.on_socket, zoom. cbn.
  unfold Socket.sendall. cbn. rewrite Hc. cbn.
  eexists. split; [reflexivity|]. cbn. rewrite <- app_assoc. now split.
Qed.

(** X7 (a cycle after a failed cycle).  [TcpSocketLocust.ping_pong] does not
    look at the state of its socket: called again after a cycle that failed
    with [e], it finds the socket closed, fails at its first [sendall] with
    [OSError: Bad file descriptor], makes no [recv], and fires a second
    failure event.  These are the further errors that the flag [running] of
    the task set keeps out of the statistics. *)
Theorem retry_without_flag_fails (l l1 : TcpSocketLocust.t) (e : exn) :
  TcpSocketLocust.ping_pong l = (Raises e, l1) ->
  exists l2,
    TcpSocketLocust.ping_pong l1 = (Raises EBADF, l2)
    /\ TcpSocketLocust.fired l2
       = TcpSocketLocust.fired l
         ++ [request_failure "tcp" "ping-pong" (elapsed l) e;
             request_failure "tcp" "ping-pong" (elapsed l1) EBADF]
    /\ sk_trace (TcpSocketLocust.socket l2)
       = sk_trace (TcpSocketLocust.socket l1)
         ++ [OpSendall hdr4 (Some EBADF); OpClose].
Proof.
  intros Hfail.
  destruct (ping_pong_inv l)
    as (r & s' & ev & ops & Hrun & _ & _ & _ & _ & Hr).
  rewrite Hfail in Hrun. injection Hrun as <- ->.
  destruct Hr as (-> & _ & Hcl).
  destruct (ping_pong_closed
              (TcpSocketLocust.mk s' (TcpSocketLocust.host l)
                 (TcpSocketLocust.port l)
                 (TcpSocketLocust.fired l
                  ++ [request_failure "tcp" "ping-pong" (elapsed l) e])
                 (TcpSocketLocust.clock l) (S (S (TcpSocketLocust.ticks l))))
              Hcl)
    as (l2 & Hrun2 & Hfired & Htr).
  exists l2. split; [exact Hrun2|]. split; [|exact Htr].
  rewrite Hfired. cbn [TcpSocketLocust.fired]. now rewrite <- app_assoc.
Qed.

Lemma retry_without_flag_fails_witness :
  let l1 := snd (TcpSocketLocust.ping_pong silent_client) in
  TcpSocketLocust.ping_pong silent_client
  = (Raises (Exception "Error reading bytes."), l1)
  /\ exists l2,
      TcpSocketLocust.ping_pong l1 = (Raises EBADF, l2)
      /\ TcpSocketLocust.fired l2
         = TcpSocketLocust.fired silent_client
           ++ [request_failure "tcp" "ping-pong" (elapsed silent_client)
                 (Exception "Error reading bytes.");
               request_failure "tcp" "ping-pong" (elapsed l1) EBADF]
      /\ sk_trace (TcpSocketLocust.socket l2)
         = sk_trace (TcpSocketLocust.socket l1)
           ++ [OpSendall hdr4 (Some EBADF); OpClose].
Proof.
  intros l1.
  assert (H1 : TcpSocketLocust.ping_pong silent_client
               = (Raises (Exception "Error reading bytes."), l1))
    by reflexivity.
  split; [exact H1|].
  exact (retry_without_flag_fails silent_client l1 _ H1).
Defined.

(** X8 (what a run of the task records).  For every client and every
    number [n] of invocations, the task never raises to the scheduler, and
    the events it fires are successes, [n] at most, followed by one failure
    at most.  After a failure [running] is [False]; without one it is as it
    was. *)
Theorem tasks_events_shape (n : nat) :
  forall u : UserBehavior.t,
    exists u' oks bad,
      UserBehavior.tasks n u = (Returns tt, u')
      /\ TcpSocketLocust.fired (UserBehavior.locust u')
         = TcpSocketLocust.fired (UserBehavior.locust u) ++ oks ++ bad
      /\ forallb is_success oks = true
      /\ (List.length oks <= n)%nat
      /\ ((bad = [] /\ UserBehavior.running u' = UserBehavior.running u)
          \/ (exists rt e,
                bad = [request_failure "tcp" "ping-pong" rt e]
                /\ UserBehavior.running u = true
                /\ UserBehavior.running u' = false)).
Proof.
  induction n as [|n IH]; intros u.
  - exists u, [], []. cbn. rewrite app_nil_r. repeat split; auto.
  - destruct (UserBehavior.running u) eqn:Hr.
    + cbn [UserBehavior.tasks]. unfold bind.
      rewrite (task_running u Hr).
      destruct (ping_pong_inv (UserBehavior.locust u))
        as (r & s' & ev & ops & -> & _ & _ & _ & _ & Hcase).
      destruct r as [[]|e|]; [| |contradiction].
      * destruct Hcase as (-> & _).
        match goal with
        | |- context [UserBehavior.tasks n ?u1] =>
          destruct (IH u1) as (u' & oks & bad & Hrun & Hf & Hoks & Hlen
                               & Hbad)
        end.
        exists u',
          (request_success "tcp" "ping-pong"
             (elapsed (UserBehavior.locust u)) 4 :: oks), bad.
        split; [exact Hrun|]. cbn in Hf, Hbad.
        split; [rewrite Hf, <- !app_assoc; reflexivity|].
        split; [exact Hoks|]. split; [simpl; lia|].
        destruct Hbad as [[-> ->]|(rt & e & -> & _ & ->)];
          [left; now split|right; eauto].
      * destruct Hcase as (-> & _).
        rewrite tasks_stopped by reflexivity.
        eexists.
        exists [], [request_failure "tcp" "ping-pong"
                      (elapsed (UserBehavior.locust u)) e].
        split; [reflexivity|]. cbn. split; [reflexivity|].
        split; [reflexivity|]. split; [lia|]. right. eauto.
    + rewrite (tasks_stopped (S n) u Hr).
      exists u, [], []. rewrite app_nil_r, Hr. repeat split; auto.
      simpl. lia.
Qed.

(** ** A whole session of the client *)

Lemma tasks_answered (n : nat) :
  forall (u : UserBehavior.t) (chunks : list bytes),
    UserBehavior.running u = true ->
    delivers chunks [] (TcpSocketLocust.socket (UserBehavior.locust u)) ->
    nonempty chunks ->
    List.concat chunks = frames frame_Pong n ->
    writable (2 * n) (TcpSocketLocust.socket (UserBehavior.locust u)) = true ->
    exists u' evs,
      UserBehavior.tasks n u = (Returns tt, u')
      /\ UserBehavior.running u' = true
      /\ TcpSocketLocust.fired (UserBehavior.locust u')
         = TcpSocketLocust.fired (UserBehavior.locust u) ++ evs
      /\ map summary evs = repeat ("ping-pong"%string, Some 4) n
      /\ sent (sk_trace (TcpSocketLocust.socket (UserBehavior.locust u')))
         = sent (sk_trace (TcpSocketLocust.socket (UserBehavior.locust u)))
           ++ writes b_Ping n
      /\ sk_closed (TcpSocketLocust.socket (UserBehavior.locust u')) = false.
Proof.
  induction n as [|n IH]; intros u chunks Hr Hd Hne Hcat Hw.
  - exists u, []. cbn. rewrite !app_nil_r. repeat split; auto. apply Hd.
  - rewrite frames_succ in Hcat.
    replace (2 * S n)%nat with (2 + 2 * n)%nat in Hw by lia.
    destruct (ping_pong_answered (2 * n) (UserBehavior.locust u) chunks _
                Hd Hne Hcat Hw)
      as (l' & chunks' & Hrun & Hd' & Hne' & Hcat' & Hw' & Hf & Hsent).
    cbn [UserBehavior.tasks]. unfold bind.
    rewrite (task_running u Hr), Hrun.
    destruct (IH (UserBehavior.mk l' true) chunks' eq_refl Hd' Hne' Hcat' Hw')
      as (u' & evs & Hrun' & Hr' & Hf' & Hsum & Hsent' & Hcl).
    cbn [UserBehavior.locust] in *.
    exists u',
      (request_success "tcp" "ping-pong" (elapsed (UserBehavior.locust u)) 4
       :: evs).
    split; [exact Hrun'|]. split; [exact Hr'|].
    split; [rewrite Hf', Hf, <- app_assoc; reflexivity|].
    split; [cbn [map repeat]; rewrite Hsum; reflexivity|].
    split; [|exact Hcl].
    rewrite Hsent', Hsent, writes_succ, <- !app_assoc. reflexivity.
Qed.

(** X9 (a session that goes well).  A fresh client whose server accepts the
    connection and answers [n] frames of ["Pong"], cut into non-empty
    chunks in any way, on a connection that takes the writes: [on_start]
    followed by [n] invocations of the task returns, the client is still
    running and its socket open, the events fired are one ["connect"]
    success of length 0 and [n] ["ping-pong"] successes of length 4, in this
    order, and the writes are [n] requests, header and [b"Ping"] in turn. *)
Theorem client_session (n : nat) (u : UserBehavior.t)
    (chunks : list bytes) :
  let s := TcpSocketLocust.socket (UserBehavior.locust u) in
  UserBehavior.running u = true ->
  sk_connected s = false -> sk_net s = None ->
  sk_rx s = map RxData chunks -> nonempty chunks ->
  List.concat chunks = frames frame_Pong n ->
  writable (2 * n) (set_connected true s) = true ->
  exists u' evs,
    (UserBehavior.on_start ;; UserBehavior.tasks n) u = (Returns tt, u')
    /\ UserBehavior.running u' = true
    /\ TcpSocketLocust.fired (UserBehavior.locust u')
       = TcpSocketLocust.fired (UserBehavior.locust u) ++ evs
    /\ map summary evs
       = ("connect"%string, Some 0) :: repeat ("ping-pong"%string, Some 4) n
    /\ sent (sk_trace (TcpSocketLocust.socket (UserBehavior.locust u')))
       = sent (sk_trace s) ++ writes b_Ping n
    /\ sk_closed (TcpSocketLocust.socket (UserBehavior.locust u')) = false.
Proof.
  intros s Hr Hcn Hnet Hrx Hne Hcat Hw.
  assert (Hcl : sk_closed s = false).
  { unfold writable in Hw. cbn in Hw.
    destruct (sk_closed s); [discriminate|reflexivity]. }
  unfold bind at 1. rewrite on_start_run.
  unfold TcpSocketLocust.connect, bind, try_except_else,
    TcpSocketLocust.time_time, TcpSocketLocust.on_socket, zoom,
    Socket.connect.
  cbn. fold s. rewrite Hcl, Hcn, Hnet. cbn.
  match goal with
  | |- context [UserBehavior.tasks n ?u1] =>
    destruct (tasks_answered n u1 chunks)
      as (u' & evs & Hrun & Hr' & Hf & Hsum & Hsent & Hcl'); auto
  end.
  - repeat split; cbn; auto. now rewrite app_nil_r.
  - exists u',
      (request_success "tcp" "connect" (elapsed (UserBehavior.locust u)) 0
       :: evs).
    cbn in Hf, Hsent.
    split; [exact Hrun|]. split; [exact Hr'|].
    split; [rewrite Hf, <- app_assoc; reflexivity|].
    split; [cbn [map]; rewrite Hsum; reflexivity|].
    split; [|exact Hcl'].
    rewrite Hsent, sent_app. cbn [sent]. now rewrite app_nil_r.
Qed.

(** A server that accepts and answers twice, in pieces. *)
Lemma client_session_witness :
  let chunks := [[x04; x00]; [x00; x00; x50; x6f; x6e; x67; x04; x00; x00];
                 [x00; x50; x6f; x6e; x67]] in
  let u := UserBehavior.init (fresh_client (map RxData chunks)) in
  let s := TcpSocketLocust.socket (UserBehavior.locust u) in
  (UserBehavior.running u = true
   /\ sk_connected s = false /\ sk_net s = None
   /\ sk_rx s = map RxData chunks /\ nonempty chunks
   /\ List.concat chunks = frames frame_Pong 2
   /\ writable (2 * 2) (set_connected true s) = true)
  /\ exists u' evs,
      (UserBehavior.on_start ;; UserBehavior.tasks 2) u = (Returns tt, u')
      /\ UserBehavior.running u' = true
      /\ TcpSocketLocust.fired (UserBehavior.locust u')
         = TcpSocketLocust.fired (UserBehavior.locust u) ++ evs
      /\ map summary evs
         = ("connect"%string, Some 0)
           :: repeat ("ping-pong"%string, Some 4) 2
      /\ sent (sk_trace (TcpSocketLocust.socket (UserBehavior.locust u')))
         = sent (sk_trace s) ++ writes b_Ping 2
      /\ sk_closed (TcpSocketLocust.socket (UserBehavior.locust u')) = false.
Proof.
  intros chunks u s.
  assert (H1 : UserBehavior.running u = true) by reflexivity.
  assert (H2 : sk_connected s = false) by reflexivity.
  assert (H3 : sk_net s = None) by reflexivity.
  assert (H4 : sk_rx s = map RxData chunks) by reflexivity.
  assert (H5 : nonempty chunks) by (repeat constructor; discriminate).
  assert (H6 : List.concat chunks = frames frame_Pong 2) by reflexivity.
  assert (H7 : writable (2 * 2) (set_connected true s) = true)
    by reflexivity.
  split; [repeat split; assumption|].
  exact (client_session 2 u chunks H1 H2 H3 H4 H5 H6 H7).
Defined.

(** X10 ([on_start] and the socket).  For every client, [on_start] returns:
    the error of a failed connect stops at it.  It makes exactly one call
    on the socket, a [connect] to the address of the client.  It never
    closes the socket, not even when the connect failed (a failed cycle
    does).  [running] becomes [False] exactly when the connect failed. *)
Theorem on_start_one_call (u : UserBehavior.t) :
  let l := UserBehavior.locust u in
  exists u' res,
    UserBehavior.on_start u = (Returns tt, u')
    /\ sk_trace (TcpSocketLocust.socket (UserBehavior.locust u'))
       = sk_trace (TcpSocketLocust.socket l)
         ++ [OpConnect (TcpSocketLocust.host l) (TcpSocketLocust.port l) res]
    /\ sk_closed (TcpSocketLocust.socket (UserBehavior.locust u'))
       = sk_closed (TcpSocketLocust.socket l)
    /\ UserBehavior.running u'
       = match res with
         | None => UserBehavior.running u
         | Some _ => false
         end
    /\ sk_connected (TcpSocketLocust.socket (UserBehavior.locust u'))
       = match res with
         | None => true
         | Some _ => sk_connected (TcpSocketLocust.socket l)
         end.
Proof.
  intros l. rewrite on_start_run. fold l.
  destruct (connect_inv (TcpSocketLocust.host l) (TcpSocketLocust.port l) l)
    as (r & s' & ev & -> & _ & Hcl & Hr).
  destruct r as [ok|e|]; [| |contradiction].
  - destruct Hr as (_ & _ & Htr & Hcn). eexists. exists None.
    split; [reflexivity|]. cbn. auto.
  - destruct Hr as (_ & Htr & Hcn). eexists. exists (Some e).
    split; [reflexivity|]. cbn. auto.
Qed.


(** ** A frame is read whole, and alone *)

(** X11 ([read_frame] stops at the end of the frame).  Whenever the three
    reading lines return a payload, the bytes that the [recv] calls
    returned are a header of four bytes followed by that payload, the
    header is the length of the payload, and exactly four bytes plus the
    payload have left the stream: the first byte of the next frame is never
    taken.  Nothing is written and the connection is the same. *)
Theorem read_frame_exact (s : sock) :
  match read_frame s with
  | (Returns d, s') =>
    (rx_pending (sk_rx s') + 4 + List.length d = rx_pending (sk_rx s))%nat
    /\ same_conn s s' /\ sk_tx s' = sk_tx s
    /\ exists ops header,
        sk_trace s' = sk_trace s ++ ops
        /\ forallb is_recv ops = true
        /\ received ops = header ++ d
        /\ len header = 4 /\ from_bytes header = len d
  | (Raises _, s') =>
    same_conn s s' /\ sk_tx s' = sk_tx s
    /\ exists ops,
        sk_trace s' = sk_trace s ++ ops /\ forallb is_recv ops = true
  | (OutOfFuel, _) => False
  end.
Proof.
  pose proof (read_frame_inv s) as H.
  destruct (read_frame s) as [[d|e|] s'];
    destruct H as (Hc & Htx & ops & Htr & Hops & H).
  - destruct H as (header & Hrecv & Hlen & Hval & Hp).
    split; [exact Hp|]. split; [exact Hc|]. split; [exact Htx|].
    exists ops, header. auto.
  - split; [exact Hc|]. split; [exact Htx|]. exists ops. auto.
  - exact H.
Qed.
